(** * AudioSDRpreProcessor: I2S single-sample delay compensation and detection

    A shallow embedding of [AudioSDRpreProcessor::update] and of the public
    control functions of src/src/AudioSDRpreProcessor.cpp.

    - sample blocks ([audio_block_t::data], 128 [int16_t]) are [list Z],
      read with [sample_at] and written with stdpp's [<[i:=x]>];
    - the object's fields are the record [AudioSDRpreProcessor];
    - [float] values are binary32, through the Standard Library's
      executable IEEE-754 specification ([spec_float] with 24 bits of
      precision and [emax = 128]);
    - the calls into the host audio framework ([transmit], [release]) are
      logged as a list of [event]s, in program order;
    - the CMSIS-DSP primitives ([arm_cfft_f32], [arm_cmplx_mag_squared_f32])
      are external and are taken as the fields of a [dsp] record. *)

From Stdlib Require Import ZArith List Bool Lia.
From Stdlib Require Import Floats.SpecFloat.
From stdpp Require Import base list.

Import ListNotations.

(** ** Sample blocks *)

(** Modelled from the spec: [n_block] is declared in AudioSDRpreProcessor.h,
    which is absent; section 3 of the specification fixes a SampleBlock at
    128 samples, the size of [audio_block_t::data]. *)
Definition n_block : nat := 128.

(** [d->data[i]] *)
Definition sample_at (d : list Z) (i : nat) : Z := default 0%Z (d !! i).

(** [for (int i = k; i > 0; i--) d->data[i] = d->data[i - 1];] *)
Fixpoint shift_loop (i : nat) (d : list Z) : list Z :=
  match i with
  | O => d
  | S j => shift_loop j (<[S j := sample_at d j]> d)
  end.

(** ** binary32 arithmetic *)

Abbreviation float := spec_float.

Definition prec : Z := 24.
Definition emax : Z := 128.

Definition fadd : float -> float -> float := SFadd prec emax.
Definition fmul : float -> float -> float := SFmul prec emax.
Definition fdiv : float -> float -> float := SFdiv prec emax.
(** [a > b] and [a < b] on floats: false as soon as one side is a NaN. *)
Definition fgt (a b : float) : bool := SFltb b a.
Definition flt (a b : float) : bool := SFltb a b.
(** conversion of an integer to [float] *)
Definition of_int (z : Z) : float := binary_normalize prec emax z 0 false.
Definition fzero : float := S754_zero false.

Definition float_at (b : list float) (i : nat) : float := default fzero (b !! i).

(** ** The object *)

Record AudioSDRpreProcessor := mkPre {
  I2Scorrection : Z;
  savedSample : Z;
  autoDetectFlag : bool;
  failureCount : Z;
  successCount : Z;
  IQswap : bool;
  buffer : list float
}.

(** The detector's thresholds are members initialised in the absent header:
    they are parameters of the model. *)
Record thresholds := mkThr {
  spectralAvgMultiplier : float;
  minImbalanceRatio : float;
  maxFailureCount : Z;
  maxSuccessCount : Z
}.

Definition with_savedSample (v : Z) (p : AudioSDRpreProcessor) :=
  mkPre (I2Scorrection p) v (autoDetectFlag p) (failureCount p)
        (successCount p) (IQswap p) (buffer p).

(** ** Delay compensation (update, lines 71-86) *)

Definition compensate (p : AudioSDRpreProcessor) (bI bQ : list Z)
  : AudioSDRpreProcessor * list Z * list Z :=
  if (I2Scorrection p =? 1)%Z then
    let temp := sample_at bI (n_block - 1) in
    let bI1 := shift_loop (n_block - 1) bI in
    let bI2 := <[0 := savedSample p]> bI1 in
    (with_savedSample temp p, bI2, bQ)
  else if (I2Scorrection p =? -1)%Z then
    let temp := sample_at bQ (n_block - 1) in
    let bQ1 := shift_loop (n_block - 1) bQ in
    let bI1 := <[0 := savedSample p]> bI in
    (with_savedSample temp p, bI1, bQ1)
  else (p, bI, bQ).

(** ** Channel swap (update, lines 159-167) *)

Definition swap_body (i : nat) (bs : list Z * list Z) : list Z * list Z :=
  let temp := sample_at (fst bs) i in
  let bI := <[i := sample_at (snd bs) i]> (fst bs) in
  let bQ := <[i := temp]> (snd bs) in
  (bI, bQ).

(** [for (int i = lo; i < lo + n; i++) body] *)
Fixpoint for_up {St : Type} (body : nat -> St -> St) (lo n : nat) (s : St) : St :=
  match n with
  | O => s
  | S k => for_up body (lo + 1) k (body lo s)
  end.

Definition swap_loop (bI bQ : list Z) : list Z * list Z :=
  for_up swap_body 0 128 (bI, bQ).

(** ** Spectral detection (update, lines 97-154) *)

(** The CMSIS-DSP primitives.  [arm_cfft_f32 buf] is the content of the
    256-float buffer after the in-place forward transform of length 128
    ([arm_cfft_f32(&arm_cfft_sR_f32_len128, buffer, 0, 1)]);
    [arm_cmplx_mag_squared_f32 src dst n] is the content of [dst] after the
    call, which writes [n] squared magnitudes to [dst[0..n-1]]. *)
Record dsp := mkDsp {
  arm_cfft_f32 : list float -> list float;
  arm_cmplx_mag_squared_f32 : list float -> list float -> nat -> list float
}.

(** [const int16_t n_FFT = 128;] and [const int16_t min = 5;] *)
Definition n_FFT : nat := 128.
Definition min_line : nat := 5.

(** The divisor [32767.0] is taken as a binary32 constant, so the quotient
    is rounded once, to binary32. *)
Definition full_scale : float := of_int 32767.

Definition fill_body (bI bQ : list Z) (i : nat) (buf : list float) : list float :=
  let buf1 := <[2 * i := fdiv (of_int (sample_at bI i)) full_scale]> buf in
  <[2 * i + 1 := fdiv (of_int (sample_at bQ i)) full_scale]> buf1.

Definition fill_buffer (bI bQ : list Z) (buf : list float) : list float :=
  for_up (fill_body bI bQ) 0 128 buf.

(** The locals of the peak search (lines 101, 114, 115). *)
Record peak := mkPeak {
  average_power : float;
  maximum_power : float;
  maxLine : nat
}.

Definition peak_init : peak := mkPeak fzero fzero 0.

Definition peak_body (buf : list float) (i : nat) (s : peak) : peak :=
  let avg := fadd (average_power s) (float_at buf i) in
  if fgt (float_at buf i) (maximum_power s)
  then mkPeak avg (float_at buf i) i
  else mkPeak avg (maximum_power s) (maxLine s).

(** [for (int i = min; i < (n_FFT - min); i++)] *)
Definition find_peak (buf : list float) : peak :=
  for_up (peak_body buf) min_line (n_FFT - min_line - min_line) peak_init.

(** [average_power /= (n_FFT - 2 * min);] *)
Definition mean_power (buf : list float) : float :=
  fdiv (average_power (find_peak buf)) (of_int (Z.of_nat (n_FFT - 2 * min_line))).

(** The index of the image line, [n_FFT - maxLine]. *)
Definition image_line (buf : list float) : nat := n_FFT - maxLine (find_peak buf).

(** [float imbalance_ratio = maximum_power / buffer[n_FFT - maxLine];] *)
Definition imbalance_ratio (buf : list float) : float :=
  fdiv (maximum_power (find_peak buf)) (float_at buf (image_line buf)).

(** [maximum_power > spectralAvgMultiplier * average_power] *)
Definition strength_gate (t : thresholds) (buf : list float) : bool :=
  fgt (maximum_power (find_peak buf)) (fmul (spectralAvgMultiplier t) (mean_power buf)).

(** [imbalance_ratio < minImbalanceRatio] *)
Definition ratio_too_low (t : thresholds) (buf : list float) : bool :=
  flt (imbalance_ratio buf) (minImbalanceRatio t).

(** *** The counters (lines 134-153)

    The integer types of [I2Scorrection], [failureCount] and [successCount]
    are declared in the absent header; they are modelled as integers. *)

Definition with_buffer (b : list float) (p : AudioSDRpreProcessor) :=
  mkPre (I2Scorrection p) (savedSample p) (autoDetectFlag p) (failureCount p)
        (successCount p) (IQswap p) b.

Definition with_failureCount (v : Z) (p : AudioSDRpreProcessor) :=
  mkPre (I2Scorrection p) (savedSample p) (autoDetectFlag p) v
        (successCount p) (IQswap p) (buffer p).

Definition with_successCount (v : Z) (p : AudioSDRpreProcessor) :=
  mkPre (I2Scorrection p) (savedSample p) (autoDetectFlag p) (failureCount p)
        v (IQswap p) (buffer p).

Definition with_I2Scorrection (v : Z) (p : AudioSDRpreProcessor) :=
  mkPre v (savedSample p) (autoDetectFlag p) (failureCount p)
        (successCount p) (IQswap p) (buffer p).

Definition with_autoDetectFlag (v : bool) (p : AudioSDRpreProcessor) :=
  mkPre (I2Scorrection p) (savedSample p) v (failureCount p)
        (successCount p) (IQswap p) (buffer p).

Definition with_IQswap (v : bool) (p : AudioSDRpreProcessor) :=
  mkPre (I2Scorrection p) (savedSample p) (autoDetectFlag p) (failureCount p)
        (successCount p) v (buffer p).

(** lines 134-137 *)
Definition count_verdict (low : bool) (p : AudioSDRpreProcessor) :=
  if low then with_failureCount (failureCount p + 1) p
  else with_failureCount 0 p.

(** lines 142-146, the body of [if (failureCount > maxFailureCount)] *)
Definition next_correction (p : AudioSDRpreProcessor) :=
  let p1 := with_I2Scorrection (I2Scorrection p + 1) p in
  let p2 := if (I2Scorrection p1 >? 1)%Z then with_I2Scorrection (-1) p1 else p1 in
  with_successCount 0 (with_failureCount 0 p2).

(** lines 139-147 *)
Definition check_failures (t : thresholds) (p : AudioSDRpreProcessor) :=
  if (failureCount p >? maxFailureCount t)%Z then next_correction p else p.

(** lines 134-148, the body of the strength gate *)
Definition gated (t : thresholds) (low : bool) (p : AudioSDRpreProcessor) :=
  let p1 := check_failures t (count_verdict low p) in
  with_successCount (successCount p1 + 1) p1.

(** lines 150-153 *)
Definition check_successes (t : thresholds) (p : AudioSDRpreProcessor) :=
  if (successCount p >? maxSuccessCount t)%Z then with_autoDetectFlag false p else p.

(** lines 131-153 *)
Definition state_machine (t : thresholds) (gate low : bool) (p : AudioSDRpreProcessor) :=
  check_successes t (if gate then gated t low p else p).

(** lines 114-153, on the power spectrum left in [buffer] *)
Definition evaluate (t : thresholds) (p : AudioSDRpreProcessor) :=
  state_machine t (strength_gate t (buffer p)) (ratio_too_low t (buffer p)) p.

(** lines 103-111 *)
Definition power_spectrum (d : dsp) (bI bQ : list Z) (buf : list float) : list float :=
  let buf1 := arm_cfft_f32 d (fill_buffer bI bQ buf) in
  arm_cmplx_mag_squared_f32 d buf1 buf1 128.

(** the body of [if (autoDetectFlag)] *)
Definition detect (d : dsp) (t : thresholds) (p : AudioSDRpreProcessor) (bI bQ : list Z) :=
  evaluate t (with_buffer (power_spectrum d bI bQ (buffer p)) p).

(** ** The host framework *)

(** The two acquired blocks, [blockI] and [blockQ]. *)
Inductive handle := BlockI | BlockQ.

(** [transmit(b, ch)] with the content of [b] at the call, and [release(b)]. *)
Inductive event :=
| Transmit (h : handle) (data : list Z) (ch : nat)
| Release (h : handle).

(** ** update *)

(** [rI] and [rQ] are the results of [receiveWritable(0)] and
    [receiveWritable(1)]: [None] is [NULL]. *)
Definition update (d : dsp) (t : thresholds) (p : AudioSDRpreProcessor)
    (rI rQ : option (list Z)) : AudioSDRpreProcessor * list event :=
  match rI, rQ with
  | Some bI, Some bQ =>
      let '(p1, bI1, bQ1) := compensate p bI bQ in
      let p2 := if autoDetectFlag p1 then detect d t p1 bI1 bQ1 else p1 in
      let '(bI2, bQ2) := if IQswap p2 then swap_loop bI1 bQ1 else (bI1, bQ1) in
      (p2, [Transmit BlockI bI2 0; Transmit BlockQ bQ2 1; Release BlockQ; Release BlockI])
  | _, _ =>
      (p, match rI with Some _ => [Release BlockI] | None => [] end
          ++ match rQ with Some _ => [Release BlockQ] | None => [] end)
  end.

(** ** Public functions *)

Definition startAutoI2SerrorDetection (p : AudioSDRpreProcessor) :=
  with_successCount 0 (with_failureCount 0
    (with_I2Scorrection 0 (with_autoDetectFlag true p))).

Definition stopAutoI2SerrorDetection (p : AudioSDRpreProcessor) :=
  with_I2Scorrection 0 (with_autoDetectFlag false p).

Definition getAutoI2SerrorDetectionStatus (p : AudioSDRpreProcessor) : bool :=
  autoDetectFlag p.

Definition setI2SerrorCompensation (correction : Z) (p : AudioSDRpreProcessor) :=
  with_autoDetectFlag false (with_I2Scorrection correction p).

Definition getI2SerrorCompensation (p : AudioSDRpreProcessor) : Z :=
  I2Scorrection p.

Definition swapIQ (swap : bool) (p : AudioSDRpreProcessor) := with_IQswap swap p.

(** ** Runs of ticks *)

Abbreviation tick := (option (list Z) * option (list Z))%type.

(** The object after the ticks of [ticks], in order. *)
Fixpoint run_final (d : dsp) (t : thresholds) (p : AudioSDRpreProcessor)
    (ticks : list tick) : AudioSDRpreProcessor :=
  match ticks with
  | [] => p
  | (rI, rQ) :: rest => run_final d t (fst (update d t p rI rQ)) rest
  end.

(** For each tick, the object it starts from and the events it produces. *)
Fixpoint run_log (d : dsp) (t : thresholds) (p : AudioSDRpreProcessor)
    (ticks : list tick) : list (AudioSDRpreProcessor * list event) :=
  match ticks with
  | [] => []
  | (rI, rQ) :: rest =>
      (p, snd (update d t p rI rQ)) :: run_log d t (fst (update d t p rI rQ)) rest
  end.

(** The data transmitted on output channel [ch], if any. *)
Fixpoint emitted (ch : nat) (evs : list event) : option (list Z) :=
  match evs with
  | [] => None
  | Transmit _ data c :: rest => if Nat.eqb c ch then Some data else emitted ch rest
  | Release _ :: rest => emitted ch rest
  end.

(** How many times [h] is released. *)
Fixpoint releases (h : handle) (evs : list event) : nat :=
  match evs with
  | [] => 0
  | Release BlockI :: rest =>
      (match h with BlockI => 1 | BlockQ => 0 end) + releases h rest
  | Release BlockQ :: rest =>
      (match h with BlockQ => 1 | BlockI => 0 end) + releases h rest
  | Transmit _ _ _ :: rest => releases h rest
  end.

Fixpoint transmits (evs : list event) : nat :=
  match evs with
  | [] => 0
  | Transmit _ _ _ :: rest => 1 + transmits rest
  | Release _ :: rest => transmits rest
  end.

(** The object and the two blocks after the stages of a complete tick. *)
Definition after_detection (d : dsp) (t : thresholds) (p : AudioSDRpreProcessor)
    (bI bQ : list Z) : AudioSDRpreProcessor :=
  let '(p1, bI1, bQ1) := compensate p bI bQ in
  if autoDetectFlag p1 then detect d t p1 bI1 bQ1 else p1.

(** ** A stand-in for the DSP library

    Used only to run the model on concrete inputs.  The squared magnitude is
    the documented one, [dst[i] = src[2i]^2 + src[2i+1]^2]; the transform
    leaves the buffer as it is, so the "spectrum" of a tick is chosen
    directly through its samples. *)

Definition mag_squared (src dst : list float) (n : nat) : list float :=
  map (fun i => fadd (fmul (float_at src (2 * i)) (float_at src (2 * i)))
                     (fmul (float_at src (2 * i + 1)) (float_at src (2 * i + 1))))
      (seq 0 n) ++ drop n dst.

Definition bench_dsp : dsp := mkDsp (fun buf => buf) mag_squared.

Definition bench_thresholds : thresholds := mkThr (of_int 2) (of_int 3) 2 4.

Definition idle : AudioSDRpreProcessor :=
  mkPre 0 0 false 0 0 false (repeat fzero 256).

(** The ramp 0, 1, ..., 127 offset by [k]. *)
Definition ramp (k : Z) : list Z := map (fun i => (k + Z.of_nat i)%Z) (seq 0 128).

(** ** Vocabulary of the statements *)

(** A tick on which both blocks arrived, each with its 128 samples. *)
Definition complete (tk : tick) : Prop :=
  match tk with
  | (Some bI, Some bQ) => length bI = 128 /\ length bQ = 128
  | _ => False
  end.

(** The output channel on which the samples held by [blockI] after the
    compensation leave: channel 0, or channel 1 when [IQswap] is set. *)
Definition I_channel (swap : bool) : nat := if swap then 1 else 0.
Definition Q_channel (swap : bool) : nat := if swap then 0 else 1.

(** The I samples received and emitted by one tick of a run. *)
Definition tick_I (tk : tick) : list Z := default [] (fst tk).
Definition out_I (e : AudioSDRpreProcessor * list event) : list Z :=
  default [] (emitted (I_channel (IQswap (fst e))) (snd e)).

(** The correction mode is [DelayI] at the start of every tick of a log. *)
Definition all_DelayI (log : list (AudioSDRpreProcessor * list event)) : Prop :=
  Forall (fun e => I2Scorrection (fst e) = 1%Z) log.

(** The power spectrum that a complete tick leaves in [buffer] (line 111):
    the transform of the blocks as the compensation left them. *)
Definition tick_spectrum (d : dsp) (p : AudioSDRpreProcessor) (bI bQ : list Z)
  : list float :=
  power_spectrum d (snd (fst (compensate p bI bQ))) (snd (compensate p bI bQ)) (buffer p).

(** The object when line 113 is reached, on a complete tick. *)
Definition before_evaluation (d : dsp) (p : AudioSDRpreProcessor) (bI bQ : list Z)
  : AudioSDRpreProcessor :=
  with_buffer (tick_spectrum d p bI bQ) (fst (fst (compensate p bI bQ))).

(** The cycle of correction modes: -1, 0, +1, and back to -1. *)
Definition cycle (m : Z) : Z :=
  if (m =? -1)%Z then 0%Z else if (m =? 0)%Z then 1%Z else (-1)%Z.

(** The failure count after lines 134-137, before it is tested. *)
Definition failures_so_far (low : bool) (p : AudioSDRpreProcessor) : Z :=
  if low then (failureCount p + 1)%Z else 0%Z.

(** A tick crosses the failure threshold when the gate passes ([gate]) and
    the failure count updated by the verdict ([low]: the ratio is too low)
    exceeds [maxFailureCount]. *)
Definition crosses (t : thresholds) (gate low : bool) (p : AudioSDRpreProcessor) : bool :=
  gate && (failures_so_far low p >? maxFailureCount t)%Z.

(** The spectrum of a full-scale real cosine on line 10 (I = cos, Q = 0):
    lines 10 and 118 carry the same power, (128/2)^2, the others none. *)
Definition cosine_spectrum : list float :=
  <[10 := of_int 4096]> (<[118 := of_int 4096]> (repeat fzero 256)).

(** Two equal pulses on samples 10 and 118: under [bench_dsp] the tick's
    buffer has two equal lines there. *)
Definition two_pulses : list Z :=
  <[10 := 16384%Z]> (<[118 := 16384%Z]> (repeat 0%Z 128)).

Definition silence : list Z := repeat 0%Z 128.

(** Detection is off and the correction mode is [m] at the start of every
    tick of a log. *)
Definition frozen_at (m : Z) (log : list (AudioSDRpreProcessor * list event)) : Prop :=
  Forall (fun e => autoDetectFlag (fst e) = false /\ I2Scorrection (fst e) = m) log.

(** Objects on which the statements are exercised. *)
Definition two_failures : AudioSDRpreProcessor :=
  mkPre 0 0 true 2 1 false (repeat fzero 256).
Definition four_successes : AudioSDRpreProcessor :=
  mkPre 1 5 true 0 4 false (repeat fzero 256).
Definition two_successes : AudioSDRpreProcessor :=
  mkPre 0 0 true 0 2 false (repeat fzero 256).

(** ** Vocabulary of the detector statements *)

(** The lines scanned by the peak search: [min <= i < n_FFT - min]. *)
Definition in_window (i : nat) : Prop := min_line <= i < n_FFT - min_line.

(** [m] is a line of maximum power over the window: it lies in the window
    and no line of the window is above it. *)
Definition window_argmax (buf : list float) (m : nat) : Prop :=
  in_window m /\ forall i, in_window i -> fgt (float_at buf i) (float_at buf m) = false.

(** Some line of the window has strictly positive power. *)
Definition positive_line (buf : list float) : Prop :=
  exists i, in_window i /\ fgt (float_at buf i) fzero = true.

(** The sum of the power over the window, accumulated in increasing order of
    the lines from [0.0]. *)
Definition window_sum (buf : list float) : float :=
  fold_left fadd (map (float_at buf) (seq min_line (n_FFT - 2 * min_line))) fzero.

(** A zero of either sign. *)
Definition is_zero (x : float) : Prop := x = S754_zero false \/ x = S754_zero true.

(** No power on any line of the window. *)
Definition silent_window (buf : list float) : Prop :=
  forall i, in_window i -> is_zero (float_at buf i).

(** The DSP library maps silence to a spectrum with no power in the window. *)
Definition silence_has_no_power (d : dsp) : Prop :=
  forall buf, silent_window (power_spectrum d silence silence buf).

(** The strength gate fails on every complete tick of the run that finds
    detection enabled. *)
Fixpoint gate_fails_throughout (d : dsp) (t : thresholds) (p : AudioSDRpreProcessor)
    (ticks : list tick) : Prop :=
  match ticks with
  | [] => True
  | (rI, rQ) :: rest =>
      match rI, rQ with
      | Some bI, Some bQ =>
          autoDetectFlag p = true -> strength_gate t (tick_spectrum d p bI bQ) = false
      | _, _ => True
      end /\ gate_fails_throughout d t (fst (update d t p rI rQ)) rest
  end.

(** The buffer of a silent tick after the transform: no power anywhere. *)
Definition zero_spectrum : list float := repeat fzero 256.

(** What the search knows after the lines [min .. i-1]: either nothing was
    above [0.0] and the locals still hold their initial values, or [maxLine]
    is a scanned line above [0.0], holds [maximum_power], and no scanned line
    is above it. *)
Definition peak_inv (buf : list float) (i : nat) (s : peak) : Prop :=
  (maxLine s = 0 /\ maximum_power s = fzero /\
   forall j, min_line <= j < i -> fgt (float_at buf j) fzero = false)
  \/
  (min_line <= maxLine s < i /\ maximum_power s = float_at buf (maxLine s) /\
   fgt (float_at buf (maxLine s)) fzero = true /\
   forall j, min_line <= j < i -> fgt (float_at buf j) (float_at buf (maxLine s)) = false).


(** ** Vocabulary of the further properties *)

Definition handle_eqb (a b : handle) : bool :=
  match a, b with
  | BlockI, BlockI | BlockQ, BlockQ => true
  | _, _ => false
  end.

(** No block is transmitted or released once it has been released; [gone]
    lists the blocks released so far. *)
Fixpoint released_blocks_unused (gone : list handle) (evs : list event) : bool :=
  match evs with
  | [] => true
  | Transmit h _ _ :: rest =>
      negb (existsb (handle_eqb h) gone) && released_blocks_unused gone rest
  | Release h :: rest =>
      negb (existsb (handle_eqb h) gone) && released_blocks_unused (h :: gone) rest
  end.

(** The Q samples received and emitted by one tick of a run. *)
Definition tick_Q (tk : tick) : list Z := default [] (snd tk).
Definition out_Q (e : AudioSDRpreProcessor * list event) : list Z :=
  default [] (emitted (Q_channel (IQswap (fst e))) (snd e)).

(** The ranges the detection keeps: the mode is one of -1, 0, +1, the
    failure count is at most [maxFailureCount], and the success count is at
    most [maxSuccessCount] while detection runs and one more once it has
    stopped itself. *)
Definition counters_in_range (t : thresholds) (p : AudioSDRpreProcessor) : Prop :=
  (-1 <= I2Scorrection p <= 1)%Z /\
  (0 <= failureCount p <= maxFailureCount t)%Z /\
  (0 <= successCount p <= maxSuccessCount t + 1)%Z /\
  (autoDetectFlag p = true -> (successCount p <= maxSuccessCount t)%Z).

(** Element [k] of the buffer after the fill loop: sample [k/2] of I for an
    even [k], of Q for an odd [k], over full scale. *)
Definition normalized_at (bI bQ : list Z) (k : nat) : float :=
  if Nat.even k then fdiv (of_int (sample_at bI (Nat.div2 k))) full_scale
  else fdiv (of_int (sample_at bQ (Nat.div2 k))) full_scale.

Definition normalized (bI bQ : list Z) : list float :=
  map (normalized_at bI bQ) (seq 0 256).

(** Every tick of the run is complete and, as long as detection is enabled,
    passes the strength gate without crossing the failure threshold. *)
Fixpoint gated_without_advance (d : dsp) (t : thresholds) (p : AudioSDRpreProcessor)
    (ticks : list tick) : Prop :=
  match ticks with
  | [] => True
  | (Some bI, Some bQ) :: rest =>
      (autoDetectFlag p = true ->
       strength_gate t (tick_spectrum d p bI bQ) = true /\
       crosses t true (ratio_too_low t (tick_spectrum d p bI bQ)) p = false) /\
      gated_without_advance d t (fst (update d t p (Some bI) (Some bQ))) rest
  | _ :: _ => False
  end.

(** An object with detection off and a correction value that selects
    neither delay branch, as [setI2SerrorCompensation(5)] leaves it. *)
Definition manual_five : AudioSDRpreProcessor :=
  setI2SerrorCompensation 5 (mkPre 1 9 true 1 2 true (repeat fzero 256)).

(** One pulse on sample 10: under [bench_dsp] a single line, with no image. *)
Definition one_pulse : list Z := <[10 := 16384%Z]> (repeat 0%Z 128).

(** * Properties *)

Example shift_loop_ex : shift_loop 3 [1; 2; 3; 4]%Z = [1; 1; 2; 3]%Z.
Proof. reflexivity. Qed.

Example swap_loop_ex :
  for_up swap_body 0 3 ([1; 2; 3]%Z, [4; 5; 6]%Z) = ([4; 5; 6]%Z, [1; 2; 3]%Z).
Proof. reflexivity. Qed.

(** ** Array reads and the two loops over a block *)

Lemma sample_at_insert (d : list Z) (i j : nat) (x : Z) :
  sample_at (<[i := x]> d) j =
  if decide (i = j /\ i < length d) then x else sample_at d j.
Proof.
  unfold sample_at. rewrite list_lookup_insert.
  destruct (decide _); reflexivity.
Qed.

Lemma sample_at_eq (a b : list Z) :
  length a = length b ->
  (forall i, i < length a -> sample_at a i = sample_at b i) -> a = b.
Proof.
  intros Hl H. apply list_eq. intros i.
  destruct (decide (i < length a)) as [Hi|Hi].
  - specialize (H i Hi). unfold sample_at in H.
    destruct (lookup_lt_is_Some_2 a i Hi) as [x Hx].
    destruct (lookup_lt_is_Some_2 b i ltac:(lia)) as [y Hy].
    rewrite Hx, Hy in *. simpl in H. congruence.
  - rewrite (lookup_ge_None_2 a), (lookup_ge_None_2 b); [reflexivity | lia | lia].
Qed.

Lemma shift_loop_length (k : nat) (d : list Z) :
  length (shift_loop k d) = length d.
Proof.
  revert d. induction k as [|k IH]; intros d; simpl; [reflexivity|].
  rewrite IH. apply length_insert.
Qed.

(** After the loop started at [k], slot [0] is untouched, slots [1..k] hold
    their left neighbour's original value, the others are untouched. *)
Lemma shift_loop_sample (k : nat) (d : list Z) (i : nat) :
  k < length d ->
  sample_at (shift_loop k d) i =
  if decide (1 <= i <= k) then sample_at d (i - 1) else sample_at d i.
Proof.
  revert d. induction k as [|k IH]; intros d Hk; simpl.
  - destruct (decide _); [lia | reflexivity].
  - rewrite IH by (rewrite length_insert; lia).
    rewrite !sample_at_insert.
    repeat destruct (decide _); try lia; try reflexivity.
    destruct_and?. subst i. f_equal. lia.
Qed.

Lemma sample_at_cons_take (x : Z) (d : list Z) (i n : nat) :
  n < length d -> i <= n ->
  sample_at (x :: take n d) i = if decide (i = 0) then x else sample_at d (i - 1).
Proof.
  intros Hn Hi. unfold sample_at. destruct i as [|i]; simpl; [reflexivity|].
  rewrite lookup_take_lt by lia. rewrite Nat.sub_0_r. reflexivity.
Qed.

(** The delayed block in closed form. *)
Lemma delayed_block (carry : Z) (d : list Z) :
  length d = 128 ->
  <[0 := carry]> (shift_loop 127 d) = carry :: take 127 d.
Proof.
  intros Hd. apply sample_at_eq.
  - rewrite length_insert, shift_loop_length. simpl.
    rewrite length_take. lia.
  - intros i Hi. rewrite length_insert, shift_loop_length in Hi.
    rewrite sample_at_insert, shift_loop_length, shift_loop_sample by lia.
    rewrite sample_at_cons_take by lia.
    repeat destruct (decide _); try lia; reflexivity.
Qed.

Lemma swap_body_length (i : nat) (bs : list Z * list Z) :
  length (fst (swap_body i bs)) = length (fst bs) /\
  length (snd (swap_body i bs)) = length (snd bs).
Proof. unfold swap_body; simpl. rewrite !length_insert. auto. Qed.

Lemma swap_loop_sample (n lo : nat) (a b : list Z) (j : nat) :
  length a = length b ->
  sample_at (fst (for_up swap_body lo n (a, b))) j =
    (if decide (lo <= j < lo + n) then sample_at b j else sample_at a j) /\
  sample_at (snd (for_up swap_body lo n (a, b))) j =
    (if decide (lo <= j < lo + n) then sample_at a j else sample_at b j) /\
  length (fst (for_up swap_body lo n (a, b))) = length a /\
  length (snd (for_up swap_body lo n (a, b))) = length b.
Proof.
  revert lo a b. induction n as [|n IH]; intros lo a b Hl; simpl.
  - destruct (decide _); [lia | auto].
  - unfold swap_body at 2 4 6 8; simpl.
    destruct (IH (lo + 1) (<[lo := sample_at b lo]> a) (<[lo := sample_at a lo]> b))
      as (H1 & H2 & H3 & H4); [rewrite !length_insert; exact Hl|].
    rewrite H1, H2, H3, H4, !length_insert, !sample_at_insert.
    repeat split; repeat destruct (decide _); try lia; try reflexivity;
      try (destruct_and?; subst; reflexivity).
    all: unfold sample_at; rewrite !lookup_ge_None_2 by lia; reflexivity.
Qed.

(** On two blocks of equal length, at most 128, the loop exchanges them. *)
Lemma swap_loop_exchanges (a b : list Z) :
  length a = length b -> length a <= 128 -> swap_loop a b = (b, a).
Proof.
  intros Hl Hn. unfold swap_loop.
  destruct (for_up swap_body 0 128 (a, b)) as [a' b'] eqn:E.
  assert (H := fun j => swap_loop_sample 128 0 a b j Hl). rewrite E in H. simpl in H.
  f_equal; apply sample_at_eq.
  - destruct (H 0) as (_ & _ & -> & _). exact Hl.
  - intros j Hj. destruct (H j) as (-> & _ & Hla & _).
    destruct (decide _); [reflexivity | lia].
  - destruct (H 0) as (_ & _ & _ & ->). symmetry; exact Hl.
  - intros j Hj. destruct (H j) as (_ & -> & _ & Hlb).
    destruct (decide _); [reflexivity | lia].
Qed.

#[local] Arguments swap_loop : simpl never.
#[local] Arguments shift_loop : simpl never.
#[local] Arguments for_up : simpl never.
#[local] Arguments detect : simpl never.
#[local] Arguments find_peak : simpl never.

(** ** Fields the detector leaves alone *)

Ltac split_ifs :=
  repeat match goal with
         | |- context [if ?b then _ else _] => destruct b eqn:?
         end.

Lemma state_machine_frame (t : thresholds) (gate low : bool) (p : AudioSDRpreProcessor) :
  savedSample (state_machine t gate low p) = savedSample p /\
  IQswap (state_machine t gate low p) = IQswap p /\
  buffer (state_machine t gate low p) = buffer p.
Proof.
  unfold state_machine, check_successes, gated, check_failures, next_correction,
    count_verdict.
  split_ifs; simpl; auto.
Qed.

Lemma detect_frame (d : dsp) (t : thresholds) (p : AudioSDRpreProcessor) (bI bQ : list Z) :
  savedSample (detect d t p bI bQ) = savedSample p /\
  IQswap (detect d t p bI bQ) = IQswap p.
Proof.
  unfold detect, evaluate.
  destruct (state_machine_frame t
    (strength_gate t (buffer (with_buffer (power_spectrum d bI bQ (buffer p)) p)))
    (ratio_too_low t (buffer (with_buffer (power_spectrum d bI bQ (buffer p)) p)))
    (with_buffer (power_spectrum d bI bQ (buffer p)) p)) as (H1 & H2 & _).
  rewrite H1, H2. auto.
Qed.

Lemma compensate_frame (p : AudioSDRpreProcessor) (bI bQ : list Z) :
  let p1 := fst (fst (compensate p bI bQ)) in
  I2Scorrection p1 = I2Scorrection p /\ autoDetectFlag p1 = autoDetectFlag p /\
  failureCount p1 = failureCount p /\ successCount p1 = successCount p /\
  IQswap p1 = IQswap p /\ buffer p1 = buffer p.
Proof. unfold compensate. split_ifs; simpl; auto 10. Qed.

Lemma update_complete (d : dsp) (t : thresholds) (p : AudioSDRpreProcessor)
    (bI bQ : list Z) :
  update d t p (Some bI) (Some bQ) =
  let bI1 := snd (fst (compensate p bI bQ)) in
  let bQ1 := snd (compensate p bI bQ) in
  let p2 := after_detection d t p bI bQ in
  let bs := if IQswap p then swap_loop bI1 bQ1 else (bI1, bQ1) in
  (p2, [Transmit BlockI (fst bs) 0; Transmit BlockQ (snd bs) 1;
        Release BlockQ; Release BlockI]).
Proof.
  unfold update, after_detection.
  pose proof (compensate_frame p bI bQ) as Hc.
  destruct (compensate p bI bQ) as [[p1 bI1] bQ1]. simpl in *.
  destruct Hc as (_ & _ & _ & _ & Hs & _).
  assert (IQswap (if autoDetectFlag p1 then detect d t p1 bI1 bQ1 else p1) = IQswap p) as ->.
  { destruct (autoDetectFlag p1); [rewrite (proj2 (detect_frame _ _ _ _ _))|]; exact Hs. }
  destruct (IQswap p); [destruct (swap_loop bI1 bQ1)|]; reflexivity.
Qed.

Lemma after_detection_savedSample (d : dsp) (t : thresholds) (p : AudioSDRpreProcessor)
    (bI bQ : list Z) :
  savedSample (after_detection d t p bI bQ) = savedSample (fst (fst (compensate p bI bQ))).
Proof.
  unfold after_detection. destruct (compensate p bI bQ) as [[p1 bI1] bQ1]. simpl.
  destruct (autoDetectFlag p1); [apply detect_frame | reflexivity].
Qed.


#[local] Arguments update : simpl never.
#[local] Arguments compensate : simpl never.

(** ** Channel swap *)

(** C7. On every pair of 128-sample blocks, running the swap loop twice in
    succession gives back both blocks, sample for sample: the first pass
    exchanges the two blocks and the second exchanges them back. *)
Theorem swap_twice_restores (bI bQ : list Z) :
  length bI = 128 -> length bQ = 128 ->
  swap_loop bI bQ = (bQ, bI) /\
  swap_loop (fst (swap_loop bI bQ)) (snd (swap_loop bI bQ)) = (bI, bQ) /\
  (forall i, i < 128 ->
     sample_at (fst (swap_loop (fst (swap_loop bI bQ)) (snd (swap_loop bI bQ)))) i
       = sample_at bI i /\
     sample_at (snd (swap_loop (fst (swap_loop bI bQ)) (snd (swap_loop bI bQ)))) i
       = sample_at bQ i).
Proof.
  intros HI HQ.
  assert (H1 : swap_loop bI bQ = (bQ, bI)) by (apply swap_loop_exchanges; lia).
  assert (H2 : swap_loop bQ bI = (bI, bQ)) by (apply swap_loop_exchanges; lia).
  rewrite H1; cbn [fst snd]. rewrite H2; cbn [fst snd]. auto.
Qed.

Lemma swap_twice_restores_witness :
  length (ramp 0) = 128 /\ length (ramp 1000) = 128 /\
  swap_loop (fst (swap_loop (ramp 0) (ramp 1000))) (snd (swap_loop (ramp 0) (ramp 1000)))
    = (ramp 0, ramp 1000).
Proof.
  split; [reflexivity|]. split; [reflexivity|].
  apply (swap_twice_restores (ramp 0) (ramp 1000)); reflexivity.
Defined.

(** ** Missing block *)

Lemma update_missing (d : dsp) (t : thresholds) (p : AudioSDRpreProcessor)
    (rI rQ : option (list Z)) :
  rI = None \/ rQ = None -> fst (update d t p rI rQ) = p.
Proof.
  unfold update. intros [-> | ->]; [destruct rQ | destruct rI]; reflexivity.
Qed.

(** C6. When [receiveWritable] returns [NULL] for either channel, [update]
    leaves the whole object as it was (correction mode, saved sample,
    detection flag and counters, swap flag, buffer), transmits nothing, and
    releases each block that was acquired exactly once and no other. *)
Theorem missing_block_tick (d : dsp) (t : thresholds) (p : AudioSDRpreProcessor)
    (rI rQ : option (list Z)) :
  rI = None \/ rQ = None ->
  fst (update d t p rI rQ) = p /\
  transmits (snd (update d t p rI rQ)) = 0 /\
  emitted 0 (snd (update d t p rI rQ)) = None /\
  emitted 1 (snd (update d t p rI rQ)) = None /\
  releases BlockI (snd (update d t p rI rQ)) = (if rI is Some _ then 1 else 0) /\
  releases BlockQ (snd (update d t p rI rQ)) = (if rQ is Some _ then 1 else 0).
Proof.
  unfold update. intros [-> | ->]; [destruct rQ | destruct rI]; cbn; auto 10.
Qed.

Lemma missing_block_tick_witness :
  let out := update bench_dsp bench_thresholds (startAutoI2SerrorDetection idle)
                    (Some (ramp 0)) None in
  fst out = startAutoI2SerrorDetection idle /\
  transmits (snd out) = 0 /\
  emitted 0 (snd out) = None /\
  emitted 1 (snd out) = None /\
  releases BlockI (snd out) = 1 /\
  releases BlockQ (snd out) = 0.
Proof.
  apply (missing_block_tick bench_dsp bench_thresholds
           (startAutoI2SerrorDetection idle) (Some (ramp 0)) None).
  right; reflexivity.
Defined.

(** ** Delay compensation *)

Lemma take_snoc_last (d : list Z) :
  length d = 128 -> take 127 d ++ [sample_at d 127] = d.
Proof.
  intros Hd. unfold sample_at.
  destruct (lookup_lt_is_Some_2 d 127 ltac:(lia)) as [x Hx]. rewrite Hx; simpl.
  rewrite <- (take_S_r d 127 x Hx). apply take_ge. lia.
Qed.

Lemma compensate_delayI (p : AudioSDRpreProcessor) (bI bQ : list Z) :
  I2Scorrection p = 1%Z -> length bI = 128 ->
  compensate p bI bQ =
  (with_savedSample (sample_at bI 127) p, savedSample p :: take 127 bI, bQ).
Proof.
  intros Hm HI. unfold compensate. rewrite Hm.
  change (1 =? 1)%Z with true. cbv iota zeta.
  change (n_block - 1) with 127. rewrite delayed_block by exact HI. reflexivity.
Qed.

(** In the [-1] branch the loop shifts [blockQ], whose slot 0 keeps its own
    sample, and the saved sample goes to [blockI->data[0]]. *)
Lemma compensate_delayQ (p : AudioSDRpreProcessor) (bI bQ : list Z) :
  I2Scorrection p = (-1)%Z -> length bQ = 128 ->
  compensate p bI bQ =
  (with_savedSample (sample_at bQ 127) p, <[0 := savedSample p]> bI,
   sample_at bQ 0 :: take 127 bQ).
Proof.
  intros Hm HQ. unfold compensate. rewrite Hm.
  change (-1 =? 1)%Z with false. change (-1 =? -1)%Z with true. cbv iota zeta.
  change (n_block - 1) with 127.
  rewrite <- (delayed_block (sample_at bQ 0) bQ HQ).
  do 2 f_equal. symmetry. apply sample_at_eq.
  - apply length_insert.
  - intros i _. rewrite sample_at_insert, shift_loop_length.
    destruct (decide _) as [[<- _]|]; [|reflexivity].
    rewrite shift_loop_sample by lia. reflexivity.
Qed.

Lemma delayI_update (d : dsp) (t : thresholds) (p : AudioSDRpreProcessor)
    (bI bQ : list Z) :
  I2Scorrection p = 1%Z -> length bI = 128 -> length bQ = 128 ->
  emitted (I_channel (IQswap p)) (snd (update d t p (Some bI) (Some bQ)))
    = Some (savedSample p :: take 127 bI) /\
  emitted (Q_channel (IQswap p)) (snd (update d t p (Some bI) (Some bQ))) = Some bQ /\
  savedSample (fst (update d t p (Some bI) (Some bQ))) = sample_at bI 127.
Proof.
  intros Hm HI HQ. rewrite update_complete. cbv zeta. cbn [fst snd].
  rewrite after_detection_savedSample, compensate_delayI by assumption.
  cbn [fst snd with_savedSample savedSample].
  destruct (IQswap p); cbn [I_channel Q_channel].
  - rewrite swap_loop_exchanges; [auto | | ]; cbn [length]; rewrite length_take; lia.
  - auto.
Qed.

(** Over consecutive ticks in mode [DelayI], the emitted I samples followed
    by the sample left in [savedSample] are the initial [savedSample]
    followed by the received I samples: the I stream is delayed by one
    sample, with nothing lost and nothing repeated. *)
Lemma delayI_stream (d : dsp) (t : thresholds) (ticks : list tick) :
  forall p : AudioSDRpreProcessor,
  Forall complete ticks ->
  all_DelayI (run_log d t p ticks) ->
  concat (map out_I (run_log d t p ticks)) ++ [savedSample (run_final d t p ticks)]
  = savedSample p :: concat (map tick_I ticks).
Proof.
  unfold all_DelayI.
  induction ticks as [|[rI rQ] ticks IH]; intros p Hc Hm; simpl; [reflexivity|].
  apply Forall_cons in Hc as [Hc1 Hc]. simpl in Hm.
  apply Forall_cons in Hm as [Hm1 Hm]. simpl in Hm1.
  destruct rI as [bI|], rQ as [bQ|]; simpl in Hc1; try contradiction.
  destruct Hc1 as [HI HQ].
  destruct (delayI_update d t p bI bQ Hm1 HI HQ) as (He & _ & Hs).
  unfold out_I at 1. simpl fst. simpl snd. rewrite He. simpl.
  rewrite <- app_assoc, (IH _ Hc Hm), Hs. unfold tick_I at 1. simpl.
  f_equal. rewrite cons_middle, app_assoc, (take_snoc_last bI HI). reflexivity.
Qed.

(** C2. A tick executed with [I2Scorrection == 1] on two 128-sample blocks
    emits, on the output channel that carries [blockI]'s samples (channel 0,
    or channel 1 under [IQswap]), a block whose slot 0 is the [savedSample]
    the tick started with (what the preceding tick left, or the seed) and
    whose slot [i], for [i] from 1 to 127, is the received [I[i-1]]; the
    [savedSample] it leaves is the received [I[127]].  Hence over any
    following ticks that also start in mode 1, the emitted I stream followed
    by the final [savedSample] is the seed followed by the received I
    stream: no I sample is lost or repeated across tick boundaries. *)
Theorem delayI_carry (d : dsp) (t : thresholds) (p : AudioSDRpreProcessor)
    (bI bQ : list Z) (rest : list tick) :
  I2Scorrection p = 1%Z -> length bI = 128 -> length bQ = 128 ->
  let out := update d t p (Some bI) (Some bQ) in
  let ticks := (Some bI, Some bQ) :: rest in
  (exists bI' : list Z,
     emitted (I_channel (IQswap p)) (snd out) = Some bI' /\
     length bI' = 128 /\
     sample_at bI' 0 = savedSample p /\
     (forall i, 1 <= i <= 127 -> sample_at bI' i = sample_at bI (i - 1))) /\
  savedSample (fst out) = sample_at bI 127 /\
  (Forall complete rest -> all_DelayI (run_log d t (fst out) rest) ->
   concat (map out_I (run_log d t p ticks)) ++ [savedSample (run_final d t p ticks)]
   = savedSample p :: concat (map tick_I ticks)).
Proof.
  intros Hm HI HQ out ticks.
  destruct (delayI_update d t p bI bQ Hm HI HQ) as (He & _ & Hs).
  split; [|split].
  - exists (savedSample p :: take 127 bI). split; [exact He|].
    split; [simpl; rewrite length_take; lia|].
    split; [reflexivity|].
    intros i Hi. rewrite sample_at_cons_take by lia.
    destruct (decide _); [lia | reflexivity].
  - exact Hs.
  - intros Hc Hr. apply delayI_stream.
    + apply Forall_cons. split; [split; assumption | exact Hc].
    + unfold all_DelayI. simpl. apply Forall_cons. split; [exact Hm | exact Hr].
Qed.

Lemma delayI_carry_witness :
  let p := mkPre 1 42 true 0 0 false (repeat fzero 256) in
  let ticks := [(Some (ramp 0), Some (ramp 1000)); (Some (ramp 128), Some (ramp 2000))] in
  savedSample (fst (update bench_dsp bench_thresholds p (Some (ramp 0)) (Some (ramp 1000))))
    = 127%Z /\
  concat (map out_I (run_log bench_dsp bench_thresholds p ticks))
    ++ [savedSample (run_final bench_dsp bench_thresholds p ticks)]
  = 42%Z :: concat (map tick_I ticks).
Proof.
  intros p ticks.
  destruct (delayI_carry bench_dsp bench_thresholds p (ramp 0) (ramp 1000)
              [(Some (ramp 128), Some (ramp 2000))]
              eq_refl eq_refl eq_refl) as (_ & Hs & Hrun).
  split; [exact Hs|].
  apply Hrun.
  - repeat constructor.
  - unfold all_DelayI. vm_compute. repeat constructor.
Defined.

(** [compensate] computes on [blockI] and [blockQ] only; the C1 branch is
    run here on ramps, with 7 in [savedSample]. *)
Example delayQ_example :
  compensate (mkPre (-1) 7 false 0 0 false []) (ramp 100) (ramp 200)
  = (mkPre (-1) 327 false 0 0 false [],
     7%Z :: drop 1 (ramp 100), 200%Z :: take 127 (ramp 200)).
Proof. vm_compute. reflexivity. Qed.

(** C1 (defect of the code). In the branch [I2Scorrection == -1] the loop
    shifts [blockQ] and [savedSample] receives Q's last sample, but line 84
    stores the previous [savedSample] into [blockI->data[0]]: after the tick
    Q[0] still holds Q's own first sample (now also in Q[1]) and the I block
    has lost its first sample.  Here the carry is 7, I is the ramp from 100
    and Q the ramp from 200. *)
Theorem delayQ_carry_goes_to_I :
  let p := mkPre (-1) 7 false 0 0 false (repeat fzero 256) in
  let out := update bench_dsp bench_thresholds p (Some (ramp 100)) (Some (ramp 200)) in
  emitted 1 (snd out) = Some (200%Z :: take 127 (ramp 200)) /\
  emitted 0 (snd out) = Some (7%Z :: drop 1 (ramp 100)) /\
  sample_at (default [] (emitted 1 (snd out))) 0 <> 7%Z /\
  sample_at (default [] (emitted 0 (snd out))) 0 = 7%Z /\
  savedSample (fst out) = 327%Z.
Proof. vm_compute. repeat split; congruence. Qed.

(** ** The counters *)

Lemma state_machine_gate_off (t : thresholds) (low : bool) (p : AudioSDRpreProcessor) :
  I2Scorrection (state_machine t false low p) = I2Scorrection p /\
  failureCount (state_machine t false low p) = failureCount p /\
  successCount (state_machine t false low p) = successCount p /\
  autoDetectFlag (state_machine t false low p) =
    (if (successCount p >? maxSuccessCount t)%Z then false else autoDetectFlag p).
Proof.
  unfold state_machine, check_successes. split_ifs; cbn; auto.
Qed.

Lemma state_machine_gate_on (t : thresholds) (low : bool) (p : AudioSDRpreProcessor) :
  (if (failures_so_far low p >? maxFailureCount t)%Z
   then I2Scorrection (state_machine t true low p)
          = (if (I2Scorrection p + 1 >? 1)%Z then -1 else I2Scorrection p + 1)%Z
        /\ failureCount (state_machine t true low p) = 0%Z
        /\ successCount (state_machine t true low p) = 1%Z
   else I2Scorrection (state_machine t true low p) = I2Scorrection p
        /\ failureCount (state_machine t true low p) = failures_so_far low p
        /\ successCount (state_machine t true low p) = (successCount p + 1)%Z) /\
  autoDetectFlag (state_machine t true low p) =
    (if (successCount (state_machine t true low p) >? maxSuccessCount t)%Z
     then false else autoDetectFlag p).
Proof.
  unfold state_machine, check_successes, gated, check_failures, next_correction,
    count_verdict, failures_so_far.
  destruct low; cbn;
    repeat match goal with
           | |- context [(?a >? ?b)%Z] =>
               destruct (a >? b)%Z eqn:?; cbn; change (0 + 1)%Z with 1%Z
           end; try congruence; auto.
Qed.

Lemma check_failures_crossing (t : thresholds) (low : bool) (q : AudioSDRpreProcessor) :
  (failures_so_far low q >? maxFailureCount t)%Z = true ->
  I2Scorrection (check_failures t (count_verdict low q))
    = (if (I2Scorrection q + 1 >? 1)%Z then -1 else I2Scorrection q + 1)%Z /\
  failureCount (check_failures t (count_verdict low q)) = 0%Z /\
  successCount (check_failures t (count_verdict low q)) = 0%Z.
Proof.
  unfold check_failures, count_verdict, failures_so_far, next_correction.
  destruct low; cbn; intros ->; cbn; destruct (_ >? _)%Z; cbn; auto.
Qed.

Lemma cycle_step (m : Z) :
  (-1 <= m <= 1)%Z -> (if (m + 1 >? 1)%Z then -1 else m + 1)%Z = cycle m.
Proof.
  intros Hm. unfold cycle.
  destruct (Z.gtb_spec (m + 1) 1), (Z.eqb_spec m (-1)), (Z.eqb_spec m 0); lia.
Qed.

Lemma after_detection_enabled (d : dsp) (t : thresholds) (p : AudioSDRpreProcessor)
    (bI bQ : list Z) :
  autoDetectFlag p = true ->
  after_detection d t p bI bQ = evaluate t (before_evaluation d p bI bQ).
Proof.
  intros He. unfold after_detection, before_evaluation, tick_spectrum.
  pose proof (compensate_frame p bI bQ) as Hc.
  destruct (compensate p bI bQ) as [[p1 bI1] bQ1]. cbn [fst snd] in *.
  destruct Hc as (_ & Hf & _ & _ & _ & Hb). rewrite Hf, He, <- Hb. reflexivity.
Qed.

Lemma after_detection_disabled (d : dsp) (t : thresholds) (p : AudioSDRpreProcessor)
    (bI bQ : list Z) :
  autoDetectFlag p = false ->
  after_detection d t p bI bQ = fst (fst (compensate p bI bQ)).
Proof.
  intros He. unfold after_detection.
  pose proof (compensate_frame p bI bQ) as Hc.
  destruct (compensate p bI bQ) as [[p1 bI1] bQ1]. cbn [fst snd] in *.
  destruct Hc as (_ & Hf & _). rewrite Hf, He. reflexivity.
Qed.

Lemma before_evaluation_fields (d : dsp) (p : AudioSDRpreProcessor) (bI bQ : list Z) :
  I2Scorrection (before_evaluation d p bI bQ) = I2Scorrection p /\
  autoDetectFlag (before_evaluation d p bI bQ) = autoDetectFlag p /\
  failureCount (before_evaluation d p bI bQ) = failureCount p /\
  successCount (before_evaluation d p bI bQ) = successCount p /\
  buffer (before_evaluation d p bI bQ) = tick_spectrum d p bI bQ.
Proof.
  unfold before_evaluation. cbn.
  destruct (compensate_frame p bI bQ) as (H1 & H2 & H3 & H4 & _). auto.
Qed.

Lemma update_state (d : dsp) (t : thresholds) (p : AudioSDRpreProcessor) (bI bQ : list Z) :
  fst (update d t p (Some bI) (Some bQ)) = after_detection d t p bI bQ.
Proof. rewrite update_complete. reflexivity. Qed.

Lemma enabled_tick (d : dsp) (t : thresholds) (p : AudioSDRpreProcessor) (bI bQ : list Z) :
  autoDetectFlag p = true ->
  fst (update d t p (Some bI) (Some bQ)) =
  state_machine t (strength_gate t (tick_spectrum d p bI bQ))
    (ratio_too_low t (tick_spectrum d p bI bQ)) (before_evaluation d p bI bQ).
Proof.
  intros He. rewrite update_state, after_detection_enabled by exact He.
  unfold evaluate.
  destruct (before_evaluation_fields d p bI bQ) as (_ & _ & _ & _ & ->). reflexivity.
Qed.

(** C3 (amended). On a complete tick with detection enabled on which the
    strength gate passes and the ratio is below [minImbalanceRatio], line 135
    increments [failureCount], and [successCount] is not reset: line 148
    increments it.  When the incremented [failureCount] exceeds
    [maxFailureCount] the tick ends with [failureCount = 0] and
    [successCount = 1]; otherwise it ends with both counters one higher. *)
Theorem unacceptable_verdict_counts (d : dsp) (t : thresholds)
    (p : AudioSDRpreProcessor) (bI bQ : list Z) :
  autoDetectFlag p = true ->
  strength_gate t (tick_spectrum d p bI bQ) = true ->
  ratio_too_low t (tick_spectrum d p bI bQ) = true ->
  let p' := fst (update d t p (Some bI) (Some bQ)) in
  failureCount (count_verdict true (before_evaluation d p bI bQ))
    = (failureCount p + 1)%Z /\
  if (failureCount p + 1 >? maxFailureCount t)%Z
  then failureCount p' = 0%Z /\ successCount p' = 1%Z
  else failureCount p' = (failureCount p + 1)%Z /\
       successCount p' = (successCount p + 1)%Z.
Proof.
  intros He Hg Hl p'. subst p'. rewrite enabled_tick by exact He. rewrite Hg, Hl.
  destruct (before_evaluation_fields d p bI bQ) as (Hm & _ & Hf & Hs & _).
  split; [cbn [count_verdict failureCount with_failureCount]; rewrite Hf; reflexivity|].
  destruct (state_machine_gate_on t true (before_evaluation d p bI bQ)) as [H _].
  unfold failures_so_far in H. rewrite Hf, Hs in H.
  destruct (failureCount p + 1 >? maxFailureCount t)%Z; tauto.
Qed.

Lemma unacceptable_verdict_counts_witness :
  failureCount (fst (update bench_dsp bench_thresholds two_successes
                       (Some two_pulses) (Some silence))) = 1%Z /\
  successCount (fst (update bench_dsp bench_thresholds two_successes
                       (Some two_pulses) (Some silence))) = 3%Z.
Proof.
  destruct (unacceptable_verdict_counts bench_dsp bench_thresholds two_successes
              two_pulses silence)
    as [_ H]; [reflexivity | vm_compute; reflexivity | vm_compute; reflexivity |].
  exact H.
Defined.

(** C3 as stated fails.  The buffer holds the spectrum of a full-scale real
    cosine on line 10; with thresholds 2 and 3 the gate passes and the ratio,
    1, is too low; [successCount], 2 before the evaluation, is 3 after it. *)
Lemma success_count_not_reset :
  let t := bench_thresholds in
  let p := mkPre 0 0 true 0 2 false cosine_spectrum in
  autoDetectFlag p = true /\
  strength_gate t (buffer p) = true /\
  ratio_too_low t (buffer p) = true /\
  ~ (failureCount (evaluate t p) = (failureCount p + 1)%Z /\
     successCount (evaluate t p) = 0%Z).
Proof.
  vm_compute. repeat split; try reflexivity. intros [_ H]. discriminate H.
Qed.

(** The counters and the mode after [state_machine], for any outcome of the
    gate and of the ratio test. *)
Lemma state_machine_advance (t : thresholds) (gate low : bool) (q : AudioSDRpreProcessor) :
  (-1 <= I2Scorrection q <= 1)%Z ->
  (crosses t gate low q = true ->
     (I2Scorrection (check_failures t (count_verdict low q)) = cycle (I2Scorrection q) /\
      failureCount (check_failures t (count_verdict low q)) = 0%Z /\
      successCount (check_failures t (count_verdict low q)) = 0%Z) /\
     (I2Scorrection (state_machine t gate low q) = cycle (I2Scorrection q) /\
      failureCount (state_machine t gate low q) = 0%Z /\
      successCount (state_machine t gate low q) = 1%Z)) /\
  (crosses t gate low q = false ->
     I2Scorrection (state_machine t gate low q) = I2Scorrection q).
Proof.
  intros Hr. unfold crosses. split.
  - intros Hc. apply andb_true_iff in Hc as [-> Hx].
    destruct (state_machine_gate_on t low q) as [H _]. rewrite Hx in H.
    destruct (check_failures_crossing t low q Hx) as (H1 & H2 & H3).
    rewrite cycle_step in H, H1 by exact Hr. auto.
  - intros Hc. destruct gate.
    + destruct (state_machine_gate_on t low q) as [H _]. cbn [andb] in Hc.
      rewrite Hc in H. tauto.
    + apply state_machine_gate_off.
Qed.

Lemma crosses_fields (t : thresholds) (gate low : bool) (q p : AudioSDRpreProcessor) :
  failureCount q = failureCount p -> crosses t gate low q = crosses t gate low p.
Proof. intros H. unfold crosses, failures_so_far. rewrite H. reflexivity. Qed.

(** C4. On a complete tick with detection enabled and the mode in
    {-1, 0, +1}: when the gate passes and the updated [failureCount] exceeds
    [maxFailureCount], lines 142-146 move [I2Scorrection] one step along
    -1, 0, +1, -1 and leave both counters at 0 (line 148 then counts the tick:
    the tick ends with [successCount = 1]); on every other tick, complete or
    not, [I2Scorrection] is unchanged. *)
Theorem mode_advance (d : dsp) (t : thresholds) (p : AudioSDRpreProcessor)
    (bI bQ : list Z) :
  autoDetectFlag p = true ->
  (-1 <= I2Scorrection p <= 1)%Z ->
  let gate := strength_gate t (tick_spectrum d p bI bQ) in
  let low := ratio_too_low t (tick_spectrum d p bI bQ) in
  let q := check_failures t (count_verdict low (before_evaluation d p bI bQ)) in
  let p' := fst (update d t p (Some bI) (Some bQ)) in
  (crosses t gate low p = true ->
     (I2Scorrection q = cycle (I2Scorrection p) /\
      failureCount q = 0%Z /\ successCount q = 0%Z) /\
     (I2Scorrection p' = cycle (I2Scorrection p) /\
      failureCount p' = 0%Z /\ successCount p' = 1%Z)) /\
  (crosses t gate low p = false -> I2Scorrection p' = I2Scorrection p) /\
  (forall rI rQ, rI = None \/ rQ = None ->
     I2Scorrection (fst (update d t p rI rQ)) = I2Scorrection p) /\
  (I2Scorrection p = (-1)%Z -> cycle (I2Scorrection p) = 0%Z) /\
  (I2Scorrection p = 0%Z -> cycle (I2Scorrection p) = 1%Z) /\
  (I2Scorrection p = 1%Z -> cycle (I2Scorrection p) = (-1)%Z).
Proof.
  intros He Hr gate low q p'. subst q p'. rewrite enabled_tick by exact He.
  fold gate low. clearbody gate low.
  destruct (before_evaluation_fields d p bI bQ) as (Hm & _ & Hf & _).
  rewrite <- (crosses_fields t gate low _ _ Hf), <- Hm.
  rewrite <- Hm in Hr.
  destruct (state_machine_advance t gate low (before_evaluation d p bI bQ) Hr)
    as [H1 H2].
  split; [exact H1|]. split; [exact H2|]. split.
  - intros rI rQ Hn. rewrite (update_missing d t p rI rQ Hn). symmetry; exact Hm.
  - rewrite Hm. repeat split; intros ->; reflexivity.
Qed.

Lemma mode_advance_witness :
  I2Scorrection (fst (update bench_dsp bench_thresholds two_failures
                        (Some two_pulses) (Some silence))) = 1%Z /\
  failureCount (fst (update bench_dsp bench_thresholds two_failures
                       (Some two_pulses) (Some silence))) = 0%Z /\
  successCount (fst (update bench_dsp bench_thresholds two_failures
                       (Some two_pulses) (Some silence))) = 1%Z.
Proof.
  destruct (mode_advance bench_dsp bench_thresholds two_failures two_pulses silence)
    as (H & _); [reflexivity | cbn; lia |].
  destruct H as [_ H]; [vm_compute; reflexivity | exact H].
Defined.

(** ** Freezing *)

Lemma disabled_update (d : dsp) (t : thresholds) (p : AudioSDRpreProcessor)
    (rI rQ : option (list Z)) :
  autoDetectFlag p = false ->
  autoDetectFlag (fst (update d t p rI rQ)) = false /\
  I2Scorrection (fst (update d t p rI rQ)) = I2Scorrection p /\
  failureCount (fst (update d t p rI rQ)) = failureCount p /\
  successCount (fst (update d t p rI rQ)) = successCount p.
Proof.
  intros He. destruct rI as [bI|], rQ as [bQ|];
    try (rewrite update_missing by auto; auto).
  rewrite update_state, after_detection_disabled by exact He.
  destruct (compensate_frame p bI bQ) as (H1 & H2 & H3 & H4 & _).
  rewrite H1, H2, H3, H4. auto.
Qed.

Lemma disabled_run (d : dsp) (t : thresholds) (ticks : list tick) :
  forall p : AudioSDRpreProcessor,
  autoDetectFlag p = false ->
  frozen_at (I2Scorrection p) (run_log d t p ticks) /\
  autoDetectFlag (run_final d t p ticks) = false /\
  I2Scorrection (run_final d t p ticks) = I2Scorrection p.
Proof.
  unfold frozen_at.
  induction ticks as [|[rI rQ] ticks IH]; intros p He; cbn [run_log run_final].
  - auto.
  - destruct (disabled_update d t p rI rQ He) as (H1 & H2 & _).
    destruct (IH _ H1) as (Ha & Hb & Hc). rewrite H2 in Ha, Hc.
    split; [|auto]. apply Forall_cons. auto.
Qed.

(** C5. On a complete tick with detection enabled that leaves [successCount]
    above [maxSuccessCount], line 152 clears [autoDetectFlag]; from then on,
    whatever blocks arrive or fail to arrive, every tick starts and ends with
    the flag clear and with the same [I2Scorrection].  Only the control
    functions change them: [startAutoI2SerrorDetection] sets the flag again,
    [stopAutoI2SerrorDetection] and [setI2SerrorCompensation] set the mode
    and leave the flag clear. *)
Theorem freeze_is_permanent (d : dsp) (t : thresholds) (p : AudioSDRpreProcessor)
    (bI bQ : list Z) (ticks : list tick) :
  autoDetectFlag p = true ->
  let p' := fst (update d t p (Some bI) (Some bQ)) in
  (successCount p' > maxSuccessCount t)%Z ->
  autoDetectFlag p' = false /\
  frozen_at (I2Scorrection p') (run_log d t p' ticks) /\
  autoDetectFlag (run_final d t p' ticks) = false /\
  I2Scorrection (run_final d t p' ticks) = I2Scorrection p' /\
  (let r := startAutoI2SerrorDetection (run_final d t p' ticks) in
   autoDetectFlag r = true /\ I2Scorrection r = 0%Z) /\
  (let r := stopAutoI2SerrorDetection (run_final d t p' ticks) in
   autoDetectFlag r = false /\ I2Scorrection r = 0%Z) /\
  (forall c, let r := setI2SerrorCompensation c (run_final d t p' ticks) in
   autoDetectFlag r = false /\ I2Scorrection r = c).
Proof.
  intros He p' Hs.
  assert (Hoff : autoDetectFlag p' = false).
  { subst p'. rewrite enabled_tick in Hs |- * by exact He.
    generalize dependent (strength_gate t (tick_spectrum d p bI bQ)).
    generalize (ratio_too_low t (tick_spectrum d p bI bQ)).
    generalize (before_evaluation d p bI bQ).
    intros q l g Hs. apply Z.gt_lt, Z.gtb_lt in Hs.
    destruct g.
    - destruct (state_machine_gate_on t l q) as [_ H]. rewrite H, Hs. reflexivity.
    - destruct (state_machine_gate_off t l q) as (_ & _ & H1 & H2).
      rewrite H2. rewrite H1 in Hs. rewrite Hs. reflexivity. }
  destruct (disabled_run d t ticks p' Hoff) as (Ha & Hb & Hc).
  repeat split; auto.
Qed.

Lemma freeze_is_permanent_witness :
  autoDetectFlag (fst (update bench_dsp bench_thresholds four_successes
                         (Some two_pulses) (Some silence))) = false /\
  I2Scorrection
    (run_final bench_dsp bench_thresholds
       (fst (update bench_dsp bench_thresholds four_successes
               (Some two_pulses) (Some silence)))
       [(Some two_pulses, Some silence); (None, Some silence);
        (Some (ramp 0), Some two_pulses)])
  = I2Scorrection (fst (update bench_dsp bench_thresholds four_successes
                          (Some two_pulses) (Some silence))).
Proof.
  destruct (freeze_is_permanent bench_dsp bench_thresholds four_successes two_pulses
              silence [(Some two_pulses, Some silence); (None, Some silence);
                       (Some (ramp 0), Some two_pulses)])
    as (H1 & _ & _ & H3 & _); [reflexivity | vm_compute; reflexivity |].
  split; [exact H1 | exact H3].
Defined.

(** ** Order on binary32 values *)

Lemma SFltb_irrefl (a : float) : SFltb a a = false.
Proof.
  unfold SFltb, SFcompare.
  destruct a as [[]|[]| |[] m e]; try reflexivity;
    rewrite Z.compare_refl, Pos.compare_cont_refl; reflexivity.
Qed.

Lemma SFltb_trans (a b c : float) :
  SFltb a b = true -> SFltb b c = true -> SFltb a c = true.
Proof.
  unfold SFltb, SFcompare.
  destruct a as [[]|[]| |[] ma ea], b as [[]|[]| |[] mb eb], c as [[]|[]| |[] mc ec];
    try discriminate; try reflexivity.
  all: destruct (Z.compare_spec ea eb), (Z.compare_spec eb ec), (Z.compare_spec ea ec);
    try discriminate; try reflexivity; try lia.
  all: change (Pos.compare_cont Eq ?x ?y) with (Pos.compare x y);
    destruct (Pos.compare_spec ma mb), (Pos.compare_spec mb mc), (Pos.compare_spec ma mc);
    try discriminate; try reflexivity; try lia.
Qed.

Lemma fgt_irrefl (a : float) : fgt a a = false.
Proof. apply SFltb_irrefl. Qed.

(** Nothing that is not above [b] is above something above [b]. *)
Lemma fgt_not_above (a b c : float) :
  fgt a b = false -> fgt c b = true -> fgt a c = false.
Proof.
  unfold fgt. intros Hab Hcb. destruct (SFltb c a) eqn:Hca; [|reflexivity].
  rewrite (SFltb_trans b c a Hcb Hca) in Hab. discriminate.
Qed.

Lemma fgt_trans (a b c : float) :
  fgt a b = true -> fgt b c = true -> fgt a c = true.
Proof. unfold fgt. intros Hab Hbc. exact (SFltb_trans c b a Hbc Hab). Qed.

(** ** The peak search *)

Lemma for_up_ind {St : Type} (body : nat -> St -> St) (P : nat -> St -> Prop) :
  forall (n lo : nat) (s : St),
  P lo s ->
  (forall i s', lo <= i < lo + n -> P i s' -> P (i + 1) (body i s')) ->
  P (lo + n) (for_up body lo n s).
Proof.
  induction n as [|n IH]; intros lo s H0 Hstep.
  - rewrite Nat.add_0_r. exact H0.
  - change (for_up body lo (S n) s) with (for_up body (lo + 1) n (body lo s)).
    replace (lo + S n) with (lo + 1 + n) by lia.
    apply IH.
    + apply Hstep; [lia | exact H0].
    + intros i s' Hi. apply Hstep. lia.
Qed.

Lemma peak_inv_step (buf : list float) (i : nat) (s : peak) :
  min_line <= i -> peak_inv buf i s -> peak_inv buf (i + 1) (peak_body buf i s).
Proof.
  intros Hi [(Hm & HM & Hall) | (Hm & HM & Hpos & Hall)]; unfold peak_body.
  - rewrite HM. destruct (fgt (float_at buf i) fzero) eqn:Hgt.
    + right. cbn [maxLine maximum_power]. repeat split; try lia; try assumption.
      intros j Hj. destruct (decide (j = i)) as [->|Hne].
      * apply fgt_irrefl.
      * apply (fgt_not_above _ fzero); [apply Hall; lia | exact Hgt].
    + left. cbn [maxLine maximum_power]. repeat split; try assumption.
      intros j Hj. destruct (decide (j = i)) as [->|Hne]; [exact Hgt | apply Hall; lia].
  - rewrite HM. destruct (fgt (float_at buf i) (float_at buf (maxLine s))) eqn:Hgt.
    + right. cbn [maxLine maximum_power]. repeat split; try lia.
      * exact (fgt_trans _ _ _ Hgt Hpos).
      * intros j Hj. destruct (decide (j = i)) as [->|Hne].
        -- apply fgt_irrefl.
        -- apply (fgt_not_above _ (float_at buf (maxLine s))); [apply Hall; lia | exact Hgt].
    + right. cbn [maxLine maximum_power]. repeat split; try lia; try assumption.
      intros j Hj. destruct (decide (j = i)) as [->|Hne]; [exact Hgt | apply Hall; lia].
Qed.

Lemma find_peak_inv (buf : list float) :
  peak_inv buf (n_FFT - min_line) (find_peak buf).
Proof.
  unfold find_peak.
  change (n_FFT - min_line) with (min_line + (n_FFT - min_line - min_line)).
  apply (for_up_ind (peak_body buf) (peak_inv buf)).
  - left. repeat split. intros j Hj. lia.
  - intros i s Hi. apply peak_inv_step. lia.
Qed.

Lemma average_power_step (buf : list float) (i : nat) (s : peak) :
  average_power (peak_body buf i s) = fadd (average_power s) (float_at buf i).
Proof. unfold peak_body. destruct (fgt _ _); reflexivity. Qed.

Lemma find_peak_sum (buf : list float) :
  average_power (find_peak buf) = window_sum buf.
Proof.
  unfold find_peak, window_sum.
  change (n_FFT - 2 * min_line) with (n_FFT - min_line - min_line).
  generalize (n_FFT - min_line - min_line). intros n.
  change fzero with (average_power peak_init). generalize peak_init.
  generalize min_line. induction n as [|n IH]; intros lo s.
  - reflexivity.
  - change (for_up (peak_body buf) lo (S n) s)
      with (for_up (peak_body buf) (lo + 1) n (peak_body buf lo s)).
    rewrite IH, average_power_step. cbn [seq map fold_left].
    replace (lo + 1) with (S lo) by lia. reflexivity.
Qed.

Lemma find_peak_positive (buf : list float) :
  positive_line buf ->
  window_argmax buf (maxLine (find_peak buf)) /\
  maximum_power (find_peak buf) = float_at buf (maxLine (find_peak buf)) /\
  fgt (float_at buf (maxLine (find_peak buf))) fzero = true.
Proof.
  intros (i & Hi & Hpos). unfold window_argmax, in_window in *.
  destruct (find_peak_inv buf) as [(_ & _ & Hall) | (Hm & HM & Hp & Hall)].
  - rewrite Hall in Hpos by lia. discriminate.
  - repeat split; try lia; try assumption.
Qed.

Lemma find_peak_none (buf : list float) :
  ~ positive_line buf ->
  maxLine (find_peak buf) = 0 /\ maximum_power (find_peak buf) = fzero.
Proof.
  intros Hn. destruct (find_peak_inv buf) as [(Hm & HM & _) | (Hm & _ & Hp & _)].
  - auto.
  - exfalso. apply Hn. exists (maxLine (find_peak buf)). split; [exact Hm | exact Hp].
Qed.

Lemma maxLine_positive (buf : list float) :
  1 <= maxLine (find_peak buf) <-> positive_line buf.
Proof.
  split.
  - intros H1. destruct (find_peak_inv buf) as [(Hm & _) | (Hm & _ & Hp & _)]; [lia|].
    exists (maxLine (find_peak buf)). split; [exact Hm | exact Hp].
  - intros Hp. destruct (find_peak_positive buf Hp) as ([Hw _] & _).
    unfold in_window, min_line in Hw. lia.
Qed.

Lemma silent_not_positive (buf : list float) :
  silent_window buf -> ~ positive_line buf.
Proof.
  intros Hs (i & Hi & Hp). destruct (Hs i Hi) as [E|E]; rewrite E in Hp; discriminate Hp.
Qed.

Lemma fadd_zero (x y : float) : is_zero x -> is_zero y -> is_zero (fadd x y).
Proof. intros [-> | ->] [-> | ->]; cbn; unfold is_zero; auto. Qed.

Lemma fold_fadd_zero (l : list float) :
  forall acc, is_zero acc -> Forall is_zero l -> is_zero (fold_left fadd l acc).
Proof.
  induction l as [|x l IH]; intros acc Ha Hl; cbn [fold_left]; [exact Ha|].
  apply Forall_cons in Hl as [Hx Hl]. apply IH; [apply fadd_zero; assumption | exact Hl].
Qed.

Lemma silent_sum (buf : list float) : silent_window buf -> is_zero (window_sum buf).
Proof.
  intros Hs. unfold window_sum. apply fold_fadd_zero; [left; reflexivity|].
  apply Forall_forall. intros x Hx. apply list_elem_of_In in Hx.
  apply in_map_iff in Hx as (i & <- & Hi).
  apply in_seq in Hi. apply Hs. unfold in_window. unfold n_FFT, min_line in *. lia.
Qed.

Lemma silent_mean (buf : list float) : silent_window buf -> is_zero (mean_power buf).
Proof.
  intros Hs. unfold mean_power. rewrite find_peak_sum.
  destruct (silent_sum buf Hs) as [-> | ->]; [left | right]; reflexivity.
Qed.

Lemma zero_not_above_product (m z : float) : is_zero z -> fgt fzero (fmul m z) = false.
Proof.
  intros [-> | ->]; destruct m as [[]|[]| |[] mm me]; reflexivity.
Qed.

(** On a window without power the gate fails, whatever the thresholds. *)
Lemma silent_gate (t : thresholds) (buf : list float) :
  silent_window buf -> strength_gate t buf = false.
Proof.
  intros Hs. unfold strength_gate.
  destruct (find_peak_none buf (silent_not_positive buf Hs)) as [_ ->].
  apply zero_not_above_product. apply silent_mean. exact Hs.
Qed.

Lemma maxLine_bound (buf : list float) :
  maxLine (find_peak buf) = 0 \/ in_window (maxLine (find_peak buf)).
Proof.
  destruct (find_peak_inv buf) as [(Hm & _) | (Hm & _)]; [left | right]; exact Hm.
Qed.

Lemma image_line_range (buf : list float) :
  (image_line buf < 128 <-> 1 <= maxLine (find_peak buf)) /\
  (image_line buf = 128 <-> maxLine (find_peak buf) = 0) /\
  (1 <= maxLine (find_peak buf) -> min_line < image_line buf <= n_FFT - min_line).
Proof.
  unfold image_line.
  destruct (maxLine_bound buf) as [-> | Hw]; unfold in_window, n_FFT, min_line in *; lia.
Qed.

Lemma imbalance_ratio_unfold (buf : list float) :
  imbalance_ratio buf =
  fdiv (maximum_power (find_peak buf)) (float_at buf (n_FFT - maxLine (find_peak buf))).
Proof. reflexivity. Qed.

Lemma strength_gate_unfold (t : thresholds) (buf : list float) :
  strength_gate t buf =
  fgt (maximum_power (find_peak buf)) (fmul (spectralAvgMultiplier t) (mean_power buf)).
Proof. reflexivity. Qed.

Lemma mean_power_sum (buf : list float) :
  mean_power buf = fdiv (window_sum buf) (of_int 118).
Proof. unfold mean_power. rewrite find_peak_sum. reflexivity. Qed.

(** ** Silent ticks *)

Lemma shifted_silence : <[0 := 0%Z]> (shift_loop (n_block - 1) silence) = silence.
Proof. vm_compute. reflexivity. Qed.

Lemma shift_loop_silence : shift_loop (n_block - 1) silence = silence.
Proof. vm_compute. reflexivity. Qed.

Lemma compensate_silence (p : AudioSDRpreProcessor) :
  I2Scorrection p = 0%Z \/ savedSample p = 0%Z ->
  snd (fst (compensate p silence silence)) = silence /\
  snd (compensate p silence silence) = silence /\
  (savedSample (fst (fst (compensate p silence silence))) = savedSample p \/
   savedSample (fst (fst (compensate p silence silence))) = 0%Z).
Proof.
  intros Hinv. unfold compensate.
  destruct (Z.eqb_spec (I2Scorrection p) 1) as [H1|H1];
    [|destruct (Z.eqb_spec (I2Scorrection p) (-1)) as [H2|H2]];
    cbn [fst snd with_savedSample savedSample].
  - destruct Hinv as [H0 | ->]; [lia|]. rewrite shifted_silence. auto.
  - destruct Hinv as [H0 | ->]; [lia|]. rewrite shift_loop_silence.
    repeat split; auto.
  - auto.
Qed.

Lemma silent_tick_spectrum (d : dsp) (p : AudioSDRpreProcessor) :
  silence_has_no_power d ->
  I2Scorrection p = 0%Z \/ savedSample p = 0%Z ->
  silent_window (tick_spectrum d p silence silence).
Proof.
  intros Hd Hinv. unfold tick_spectrum.
  destruct (compensate_silence p Hinv) as (-> & -> & _). apply Hd.
Qed.

Lemma gate_off_tick (d : dsp) (t : thresholds) (p : AudioSDRpreProcessor) (bI bQ : list Z) :
  autoDetectFlag p = true ->
  strength_gate t (tick_spectrum d p bI bQ) = false ->
  I2Scorrection (fst (update d t p (Some bI) (Some bQ))) = I2Scorrection p /\
  failureCount (fst (update d t p (Some bI) (Some bQ))) = failureCount p /\
  successCount (fst (update d t p (Some bI) (Some bQ))) = successCount p.
Proof.
  intros He Hg. rewrite enabled_tick by exact He. rewrite Hg.
  generalize (ratio_too_low t (tick_spectrum d p bI bQ)). intros low.
  destruct (state_machine_gate_off t low (before_evaluation d p bI bQ))
    as (-> & -> & -> & _).
  destruct (before_evaluation_fields d p bI bQ) as (-> & _ & -> & -> & _). auto.
Qed.

Lemma gate_fails_run (d : dsp) (t : thresholds) (ticks : list tick) :
  forall p : AudioSDRpreProcessor,
  gate_fails_throughout d t p ticks ->
  I2Scorrection (run_final d t p ticks) = I2Scorrection p /\
  failureCount (run_final d t p ticks) = failureCount p /\
  successCount (run_final d t p ticks) = successCount p.
Proof.
  induction ticks as [|[rI rQ] ticks IH]; intros p Hg; cbn [run_final]; [auto|].
  cbn [gate_fails_throughout] in Hg. destruct Hg as [Hg Hrest].
  destruct (IH _ Hrest) as (-> & -> & ->). clear IH Hrest.
  destruct rI as [bI|], rQ as [bQ|]; try (rewrite update_missing by auto; auto).
  destruct (autoDetectFlag p) eqn:He.
  - apply gate_off_tick; auto.
  - destruct (disabled_update d t p (Some bI) (Some bQ) He) as (_ & -> & -> & ->). auto.
Qed.

Lemma silent_run_gate (d : dsp) (t : thresholds) (n : nat) :
  silence_has_no_power d ->
  forall p : AudioSDRpreProcessor,
  I2Scorrection p = 0%Z \/ savedSample p = 0%Z ->
  gate_fails_throughout d t p (repeat (Some silence, Some silence) n).
Proof.
  intros Hd. induction n as [|n IH]; intros p Hinv;
    cbn [repeat gate_fails_throughout]; [exact I|].
  pose proof (silent_gate t _ (silent_tick_spectrum d p Hd Hinv)) as Hgate.
  split; [intros _; exact Hgate|].
  apply IH.
  assert (Hm : I2Scorrection (fst (update d t p (Some silence) (Some silence)))
               = I2Scorrection p).
  { destruct (autoDetectFlag p) eqn:He.
    - apply gate_off_tick; auto.
    - apply disabled_update; exact He. }
  rewrite Hm, update_state, after_detection_savedSample.
  destruct (compensate_silence p Hinv) as (_ & _ & [-> | ->]); tauto.
Qed.

(** C9. On a complete tick with detection enabled, when the strength gate
    fails the tick leaves [failureCount], [successCount] and [I2Scorrection]
    as they were; hence so does any run of ticks on each of which the gate
    fails.  A window without power makes the gate fail whatever the
    thresholds; so, with a transform that maps silence to a spectrum without
    power, a run of any number of all-zero ticks never changes the mode (the
    blocks stay all-zero through the compensation: the mode is 0, as after
    [startAutoI2SerrorDetection], or [savedSample] is 0). *)
Theorem weak_signal_no_verdict (d : dsp) (t : thresholds) (p : AudioSDRpreProcessor) :
  (forall bI bQ,
     autoDetectFlag p = true ->
     strength_gate t (tick_spectrum d p bI bQ) = false ->
     I2Scorrection (fst (update d t p (Some bI) (Some bQ))) = I2Scorrection p /\
     failureCount (fst (update d t p (Some bI) (Some bQ))) = failureCount p /\
     successCount (fst (update d t p (Some bI) (Some bQ))) = successCount p) /\
  (forall ticks,
     gate_fails_throughout d t p ticks ->
     I2Scorrection (run_final d t p ticks) = I2Scorrection p /\
     failureCount (run_final d t p ticks) = failureCount p /\
     successCount (run_final d t p ticks) = successCount p) /\
  (forall buf, silent_window buf -> strength_gate t buf = false) /\
  (silence_has_no_power d ->
   I2Scorrection p = 0%Z \/ savedSample p = 0%Z ->
   forall n,
     gate_fails_throughout d t p (repeat (Some silence, Some silence) n) /\
     I2Scorrection (run_final d t p (repeat (Some silence, Some silence) n))
       = I2Scorrection p /\
     failureCount (run_final d t p (repeat (Some silence, Some silence) n))
       = failureCount p /\
     successCount (run_final d t p (repeat (Some silence, Some silence) n))
       = successCount p).
Proof.
  split; [|split; [|split]].
  - intros bI bQ. apply gate_off_tick.
  - intros ticks. apply gate_fails_run.
  - intros buf. apply silent_gate.
  - intros Hd Hinv n.
    pose proof (silent_run_gate d t n Hd p Hinv) as Hg.
    split; [exact Hg | apply gate_fails_run; exact Hg].
Qed.

(** C10. The image line [n_FFT - maxLine] read at line 129 is below 128
    exactly when [maxLine >= 1]; [maxLine] is 0 or a line of the window, and
    it is at least 1 exactly when some line of the window has strictly
    positive power.  When none has, [maximum_power] is still [0.0] and the
    ratio is formed as [0.0 / buffer[128]]: index 128, past the power
    spectrum in elements 0 to 127.  On a window without power this is the
    case and the gate fails for every threshold, so the read is not guarded
    by the gate; it happens on the buffer of a silent tick, and on every
    all-zero block pair under a transform that maps silence to no power. *)
Theorem image_line_outside_spectrum (buf : list float) :
  (image_line buf < 128 <-> 1 <= maxLine (find_peak buf)) /\
  (maxLine (find_peak buf) = 0 \/ in_window (maxLine (find_peak buf))) /\
  (1 <= maxLine (find_peak buf) <-> positive_line buf) /\
  (~ positive_line buf ->
     image_line buf = 128 /\ imbalance_ratio buf = fdiv fzero (float_at buf 128)) /\
  (silent_window buf ->
     image_line buf = 128 /\ forall t, strength_gate t buf = false) /\
  image_line zero_spectrum = 128 /\
  (forall d p, silence_has_no_power d ->
     I2Scorrection p = 0%Z \/ savedSample p = 0%Z ->
     image_line (tick_spectrum d p silence silence) = 128 /\
     forall t, strength_gate t (tick_spectrum d p silence silence) = false).
Proof.
  assert (Hnone : forall b, ~ positive_line b ->
            image_line b = 128 /\ imbalance_ratio b = fdiv fzero (float_at b 128)).
  { intros b Hn. destruct (find_peak_none b Hn) as [Hm HM].
    rewrite imbalance_ratio_unfold, HM, Hm.
    split; [apply image_line_range; exact Hm | reflexivity]. }
  assert (Hsil : forall b, silent_window b ->
            image_line b = 128 /\ forall t, strength_gate t b = false).
  { intros b Hs. split; [apply Hnone, silent_not_positive, Hs|].
    intros t. apply silent_gate, Hs. }
  split; [apply image_line_range|].
  split; [apply maxLine_bound|].
  split; [apply maxLine_positive|].
  split; [apply Hnone|].
  split; [apply Hsil|].
  split; [vm_compute; reflexivity|].
  intros d p Hd Hinv. apply Hsil, silent_tick_spectrum; assumption.
Qed.

(** * Further properties of the code *)

(** ** Ownership of the blocks on every path of [update] *)

Lemma update_events (d : dsp) (t : thresholds) (p : AudioSDRpreProcessor)
    (rI rQ : option (list Z)) :
  match rI, rQ with
  | Some _, Some _ =>
      exists a b, snd (update d t p rI rQ)
        = [Transmit BlockI a 0; Transmit BlockQ b 1; Release BlockQ; Release BlockI]
  | Some _, None => snd (update d t p rI rQ) = [Release BlockI]
  | None, Some _ => snd (update d t p rI rQ) = [Release BlockQ]
  | None, None => snd (update d t p rI rQ) = []
  end.
Proof.
  destruct rI as [bI|], rQ as [bQ|]; try reflexivity.
  rewrite update_complete. cbv zeta. cbn [snd]. eauto.
Qed.

(** X1. Whatever [receiveWritable] returns, [update] releases each block it
    acquired exactly once and no other, transmits two blocks when both
    arrived and none otherwise, and never transmits or releases a block it
    has already released; so does every tick of a run. *)
Theorem blocks_released_exactly_once (d : dsp) (t : thresholds)
    (p : AudioSDRpreProcessor) (rI rQ : option (list Z)) (ticks : list tick) :
  releases BlockI (snd (update d t p rI rQ)) = (if rI is Some _ then 1 else 0) /\
  releases BlockQ (snd (update d t p rI rQ)) = (if rQ is Some _ then 1 else 0) /\
  transmits (snd (update d t p rI rQ))
    = (match rI, rQ with Some _, Some _ => 2 | _, _ => 0 end) /\
  released_blocks_unused [] (snd (update d t p rI rQ)) = true /\
  Forall (fun e => released_blocks_unused [] (snd e) = true /\
                   releases BlockI (snd e) <= 1 /\ releases BlockQ (snd e) <= 1)
         (run_log d t p ticks).
Proof.
  assert (Htick : forall q a b,
            releases BlockI (snd (update d t q a b)) = (if a is Some _ then 1 else 0) /\
            releases BlockQ (snd (update d t q a b)) = (if b is Some _ then 1 else 0) /\
            transmits (snd (update d t q a b))
              = (match a, b with Some _, Some _ => 2 | _, _ => 0 end) /\
            released_blocks_unused [] (snd (update d t q a b)) = true).
  { intros q a b. pose proof (update_events d t q a b) as H.
    destruct a, b; [destruct H as (x & y & ->) | rewrite H ..]; repeat split. }
  destruct (Htick p rI rQ) as (H1 & H2 & H3 & H4).
  repeat split; try assumption.
  clear H1 H2 H3 H4. revert p.
  induction ticks as [|[a b] ticks IH]; intros p; cbn [run_log]; [constructor|].
  apply Forall_cons. split; [|apply IH]. cbn [snd].
  destruct (Htick p a b) as (H1 & H2 & _ & H4). rewrite H1, H2.
  split; [exact H4|]. destruct a, b; lia.
Qed.

(** ** Ticks without correction and without detection *)

Lemma compensate_other (p : AudioSDRpreProcessor) (bI bQ : list Z) :
  I2Scorrection p <> 1%Z -> I2Scorrection p <> (-1)%Z ->
  compensate p bI bQ = (p, bI, bQ).
Proof.
  intros H1 H2. unfold compensate.
  destruct (Z.eqb_spec (I2Scorrection p) 1); [contradiction|].
  destruct (Z.eqb_spec (I2Scorrection p) (-1)); [contradiction|]. reflexivity.
Qed.

Lemma passthrough_tick (d : dsp) (t : thresholds) (p : AudioSDRpreProcessor)
    (rI rQ : option (list Z)) :
  autoDetectFlag p = false ->
  I2Scorrection p <> 1%Z -> I2Scorrection p <> (-1)%Z ->
  fst (update d t p rI rQ) = p /\
  (complete (rI, rQ) ->
   out_I (p, snd (update d t p rI rQ)) = tick_I (rI, rQ) /\
   out_Q (p, snd (update d t p rI rQ)) = tick_Q (rI, rQ)).
Proof.
  intros He H1 H2. destruct rI as [bI|], rQ as [bQ|].
  2-4: split; [apply update_missing; auto | intros []].
  rewrite update_complete. cbv zeta. cbn [fst snd].
  rewrite after_detection_disabled by exact He.
  rewrite compensate_other by assumption. cbn [fst snd].
  split; [reflexivity|]. intros [HI HQ]. unfold out_I, out_Q, tick_I, tick_Q.
  cbn [fst snd]. destruct (IQswap p); cbn [I_channel Q_channel].
  - rewrite swap_loop_exchanges by lia. split; reflexivity.
  - split; reflexivity.
Qed.

(** X2. With detection off and [I2Scorrection] neither 1 nor -1 (0, or any
    other value a caller has set), [update] leaves the object as it is on
    every tick, complete or not, and a run of complete ticks emits every
    received block unchanged: I and Q on channels 0 and 1, or on channels 1
    and 0 when [IQswap] is set. *)
Theorem passthrough_run (d : dsp) (t : thresholds) (p : AudioSDRpreProcessor)
    (ticks : list tick) :
  autoDetectFlag p = false ->
  I2Scorrection p <> 1%Z -> I2Scorrection p <> (-1)%Z ->
  run_final d t p ticks = p /\
  (Forall complete ticks ->
   map out_I (run_log d t p ticks) = map tick_I ticks /\
   map out_Q (run_log d t p ticks) = map tick_Q ticks).
Proof.
  intros He H1 H2.
  induction ticks as [|[rI rQ] ticks [IH1 IH2]]; cbn [run_final run_log map].
  - auto.
  - destruct (passthrough_tick d t p rI rQ He H1 H2) as [Hp Ho].
    rewrite Hp. split; [exact IH1|].
    intros Hc. apply Forall_cons in Hc as [Hc1 Hc].
    destruct (Ho Hc1) as [-> ->]. destruct (IH2 Hc) as [-> ->]. auto.
Qed.

Lemma passthrough_run_witness :
  run_final bench_dsp bench_thresholds manual_five
    [(Some (ramp 0), Some (ramp 500)); (None, Some silence); (Some two_pulses, Some silence)]
  = manual_five /\
  map out_I (run_log bench_dsp bench_thresholds manual_five
               [(Some (ramp 0), Some (ramp 500)); (Some two_pulses, Some silence)])
  = [ramp 0; two_pulses].
Proof.
  split.
  - apply (passthrough_run bench_dsp bench_thresholds manual_five);
      [reflexivity | discriminate | discriminate].
  - apply (passthrough_run bench_dsp bench_thresholds manual_five
             [(Some (ramp 0), Some (ramp 500)); (Some two_pulses, Some silence)]);
      [reflexivity | discriminate | discriminate |].
    repeat constructor.
Defined.

(** X3. [stopAutoI2SerrorDetection] clears the detection flag and the
    correction and nothing else: the counters and [savedSample] keep their
    values.  After it, every tick leaves the object as it is and a run of
    complete ticks emits every received block unchanged. *)
Theorem stop_makes_passthrough (d : dsp) (t : thresholds) (p : AudioSDRpreProcessor)
    (ticks : list tick) :
  getAutoI2SerrorDetectionStatus (stopAutoI2SerrorDetection p) = false /\
  getI2SerrorCompensation (stopAutoI2SerrorDetection p) = 0%Z /\
  failureCount (stopAutoI2SerrorDetection p) = failureCount p /\
  successCount (stopAutoI2SerrorDetection p) = successCount p /\
  savedSample (stopAutoI2SerrorDetection p) = savedSample p /\
  IQswap (stopAutoI2SerrorDetection p) = IQswap p /\
  run_final d t (stopAutoI2SerrorDetection p) ticks = stopAutoI2SerrorDetection p /\
  (Forall complete ticks ->
   map out_I (run_log d t (stopAutoI2SerrorDetection p) ticks) = map tick_I ticks /\
   map out_Q (run_log d t (stopAutoI2SerrorDetection p) ticks) = map tick_Q ticks).
Proof.
  repeat (split; [reflexivity|]).
  apply passthrough_run; [reflexivity | discriminate | discriminate].
Qed.

(** ** Manual override *)

Lemma disabled_run_counters (d : dsp) (t : thresholds) (ticks : list tick) :
  forall p : AudioSDRpreProcessor,
  autoDetectFlag p = false ->
  failureCount (run_final d t p ticks) = failureCount p /\
  successCount (run_final d t p ticks) = successCount p.
Proof.
  induction ticks as [|[rI rQ] ticks IH]; intros p He; cbn [run_final]; [auto|].
  destruct (disabled_update d t p rI rQ He) as (H1 & _ & H3 & H4).
  destruct (IH _ H1) as [-> ->]. auto.
Qed.

(** X4. [setI2SerrorCompensation(c)], with [c] in the range of the
    getter's [int16_t], leaves [c] as the correction and detection off,
    whatever the detection state was; over any later ticks the correction
    stays [c], detection stays off and the counters are not touched. *)
Theorem manual_override (d : dsp) (t : thresholds) (p : AudioSDRpreProcessor)
    (c : Z) (ticks : list tick) :
  (-32768 <= c <= 32767)%Z ->
  getI2SerrorCompensation (setI2SerrorCompensation c p) = c /\
  getAutoI2SerrorDetectionStatus (setI2SerrorCompensation c p) = false /\
  getI2SerrorCompensation (run_final d t (setI2SerrorCompensation c p) ticks) = c /\
  getAutoI2SerrorDetectionStatus (run_final d t (setI2SerrorCompensation c p) ticks)
    = false /\
  failureCount (run_final d t (setI2SerrorCompensation c p) ticks) = failureCount p /\
  successCount (run_final d t (setI2SerrorCompensation c p) ticks) = successCount p.
Proof.
  intros _. unfold getI2SerrorCompensation, getAutoI2SerrorDetectionStatus.
  destruct (disabled_run d t ticks (setI2SerrorCompensation c p) eq_refl)
    as (_ & H1 & H2).
  destruct (disabled_run_counters d t ticks (setI2SerrorCompensation c p) eq_refl)
    as (H3 & H4).
  rewrite H1, H2, H3, H4. repeat split.
Qed.

Lemma manual_override_witness :
  getI2SerrorCompensation
    (run_final bench_dsp bench_thresholds (setI2SerrorCompensation (-1) two_failures)
       [(Some two_pulses, Some silence); (Some two_pulses, Some silence)]) = (-1)%Z /\
  getAutoI2SerrorDetectionStatus
    (run_final bench_dsp bench_thresholds (setI2SerrorCompensation (-1) two_failures)
       [(Some two_pulses, Some silence); (Some two_pulses, Some silence)]) = false.
Proof.
  destruct (manual_override bench_dsp bench_thresholds two_failures (-1)
              [(Some two_pulses, Some silence); (Some two_pulses, Some silence)])
    as (_ & _ & H1 & H2 & _); [lia|].
  split; [exact H1 | exact H2].
Defined.

(** ** Ranges kept by the detection *)

Lemma state_machine_range (t : thresholds) (gate low : bool) (q : AudioSDRpreProcessor) :
  (0 <= maxFailureCount t)%Z -> (0 <= maxSuccessCount t)%Z ->
  autoDetectFlag q = true ->
  counters_in_range t q -> counters_in_range t (state_machine t gate low q).
Proof.
  intros HF HS He (Hm & Hf & Hs & Hen). specialize (Hen He).
  unfold counters_in_range. destruct gate.
  - destruct (state_machine_gate_on t low q) as [H Hflag].
    rewrite Hflag, He. clear Hflag.
    unfold failures_so_far in H.
    destruct (Z.gtb_spec (if low then failureCount q + 1 else 0) (maxFailureCount t))
      as [Hx|Hx]; destruct H as (-> & -> & Hsc); rewrite Hsc.
    + rewrite cycle_step by exact Hm. unfold cycle.
      destruct (Z.gtb_spec 1 (maxSuccessCount t));
        destruct (Z.eqb_spec (I2Scorrection q) (-1)), (Z.eqb_spec (I2Scorrection q) 0);
        repeat split; try lia; try discriminate.
    + destruct (Z.gtb_spec (successCount q + 1) (maxSuccessCount t));
        destruct low; repeat split; try lia; try discriminate.
  - destruct (state_machine_gate_off t low q) as (-> & -> & -> & ->). rewrite He.
    destruct (Z.gtb_spec (successCount q) (maxSuccessCount t));
      repeat split; try lia; try discriminate.
Qed.

Lemma update_range (d : dsp) (t : thresholds) (p : AudioSDRpreProcessor)
    (rI rQ : option (list Z)) :
  (0 <= maxFailureCount t)%Z -> (0 <= maxSuccessCount t)%Z ->
  counters_in_range t p -> counters_in_range t (fst (update d t p rI rQ)).
Proof.
  intros HF HS Hp. destruct (autoDetectFlag p) eqn:He.
  - destruct rI as [bI|], rQ as [bQ|]; try (rewrite update_missing by auto; exact Hp).
    rewrite enabled_tick by exact He.
    generalize (strength_gate t (tick_spectrum d p bI bQ)).
    generalize (ratio_too_low t (tick_spectrum d p bI bQ)). intros low gate.
    destruct (before_evaluation_fields d p bI bQ) as (Hm & Hfl & Hf & Hs & _).
    apply state_machine_range; try assumption; [congruence|].
    unfold counters_in_range. rewrite Hm, Hfl, Hf, Hs. exact Hp.
  - destruct (disabled_update d t p rI rQ He) as (H1 & H2 & H3 & H4).
    unfold counters_in_range. rewrite H1, H2, H3, H4.
    destruct Hp as (Hm & Hf & Hs & _). repeat split; try lia; discriminate.
Qed.

(** X5. With non-negative limits, every object reached from
    [startAutoI2SerrorDetection] by any ticks keeps [I2Scorrection] in
    {-1, 0, +1}, [failureCount] between 0 and [maxFailureCount], and
    [successCount] between 0 and [maxSuccessCount + 1], at most
    [maxSuccessCount] while detection is still enabled: the counters never
    run away, and [update] keeps these ranges from any object that has
    them. *)
Theorem counters_stay_in_range (d : dsp) (t : thresholds) (p : AudioSDRpreProcessor)
    (ticks : list tick) :
  (0 <= maxFailureCount t)%Z -> (0 <= maxSuccessCount t)%Z ->
  counters_in_range t (startAutoI2SerrorDetection p) /\
  counters_in_range t (run_final d t (startAutoI2SerrorDetection p) ticks) /\
  (forall q rI rQ, counters_in_range t q ->
     counters_in_range t (fst (update d t q rI rQ))).
Proof.
  intros HF HS.
  assert (H0 : counters_in_range t (startAutoI2SerrorDetection p)).
  { unfold counters_in_range, startAutoI2SerrorDetection. cbn. repeat split; lia. }
  split; [exact H0|]. split.
  - generalize dependent (startAutoI2SerrorDetection p). clear p.
    induction ticks as [|[rI rQ] ticks IH]; intros q Hq; cbn [run_final]; [exact Hq|].
    apply IH. apply update_range; assumption.
  - intros q rI rQ. apply update_range; assumption.
Qed.

Lemma counters_stay_in_range_witness :
  counters_in_range bench_thresholds
    (run_final bench_dsp bench_thresholds (startAutoI2SerrorDetection four_successes)
       [(Some two_pulses, Some silence); (Some two_pulses, Some silence);
        (Some two_pulses, Some silence); (Some (ramp 0), Some silence)]).
Proof.
  destruct (counters_stay_in_range bench_dsp bench_thresholds four_successes
              [(Some two_pulses, Some silence); (Some two_pulses, Some silence);
               (Some two_pulses, Some silence); (Some (ramp 0), Some silence)])
    as (_ & H & _); [unfold bench_thresholds; cbn; lia ..|].
  exact H.
Defined.

(** ** The swap flag only routes the outputs *)

Lemma compensate_IQswap (b : bool) (p : AudioSDRpreProcessor) (bI bQ : list Z) :
  compensate (with_IQswap b p) bI bQ =
  (with_IQswap b (fst (fst (compensate p bI bQ))),
   snd (fst (compensate p bI bQ)), snd (compensate p bI bQ)).
Proof.
  unfold compensate. cbn [I2Scorrection savedSample with_IQswap].
  destruct (I2Scorrection p =? 1)%Z; [|destruct (I2Scorrection p =? -1)%Z];
    cbn [fst snd]; reflexivity.
Qed.

Lemma compensate_length (p : AudioSDRpreProcessor) (bI bQ : list Z) :
  length (snd (fst (compensate p bI bQ))) = length bI /\
  length (snd (compensate p bI bQ)) = length bQ.
Proof.
  unfold compensate.
  destruct (I2Scorrection p =? 1)%Z; [|destruct (I2Scorrection p =? -1)%Z];
    cbn [fst snd]; rewrite ?length_insert, ?shift_loop_length; auto.
Qed.

Lemma check_successes_IQswap (t : thresholds) (b : bool) (q : AudioSDRpreProcessor) :
  check_successes t (with_IQswap b q) = with_IQswap b (check_successes t q).
Proof.
  unfold check_successes. cbn [successCount with_IQswap].
  destruct (successCount q >? maxSuccessCount t)%Z; reflexivity.
Qed.

Lemma count_verdict_IQswap (low b : bool) (q : AudioSDRpreProcessor) :
  count_verdict low (with_IQswap b q) = with_IQswap b (count_verdict low q).
Proof. destruct low; reflexivity. Qed.

Lemma check_failures_IQswap (t : thresholds) (b : bool) (q : AudioSDRpreProcessor) :
  check_failures t (with_IQswap b q) = with_IQswap b (check_failures t q).
Proof.
  unfold check_failures. cbn [failureCount with_IQswap].
  destruct (failureCount q >? maxFailureCount t)%Z; [|reflexivity].
  unfold next_correction. cbn [I2Scorrection with_I2Scorrection with_IQswap].
  destruct (I2Scorrection q + 1 >? 1)%Z; reflexivity.
Qed.

Lemma gated_IQswap (t : thresholds) (low b : bool) (q : AudioSDRpreProcessor) :
  gated t low (with_IQswap b q) = with_IQswap b (gated t low q).
Proof.
  unfold gated. rewrite count_verdict_IQswap, check_failures_IQswap. reflexivity.
Qed.

Lemma state_machine_IQswap (t : thresholds) (gate low b : bool) (q : AudioSDRpreProcessor) :
  state_machine t gate low (with_IQswap b q) = with_IQswap b (state_machine t gate low q).
Proof.
  unfold state_machine. destruct gate.
  - rewrite gated_IQswap. apply check_successes_IQswap.
  - apply check_successes_IQswap.
Qed.

Lemma after_detection_IQswap (d : dsp) (t : thresholds) (b : bool)
    (p : AudioSDRpreProcessor) (bI bQ : list Z) :
  after_detection d t (with_IQswap b p) bI bQ
  = with_IQswap b (after_detection d t p bI bQ).
Proof.
  unfold after_detection. rewrite compensate_IQswap.
  destruct (compensate p bI bQ) as [[p1 bI1] bQ1]. cbn [fst snd autoDetectFlag with_IQswap].
  destruct (autoDetectFlag p1); [|reflexivity].
  unfold detect, evaluate. cbn [buffer with_buffer with_IQswap].
  generalize (power_spectrum d bI1 bQ1 (buffer p1)). intros S.
  generalize (strength_gate t S), (ratio_too_low t S). intros gate low.
  apply (state_machine_IQswap t gate low b (with_buffer S p1)).
Qed.

(** X6. [swapIQ] only decides on which channel each block leaves: on two
    128-sample blocks, a tick run with the flag set ends in the same object,
    the flag apart, as the tick run with the flag clear, and transmits on
    channel 0 what that one transmits on channel 1 and on channel 1 what it
    transmits on channel 0.  The compensation and the detection work on the
    blocks before they are exchanged. *)
Theorem swap_only_reroutes (d : dsp) (t : thresholds) (p : AudioSDRpreProcessor)
    (bI bQ : list Z) :
  length bI = 128 -> length bQ = 128 ->
  fst (update d t (swapIQ true p) (Some bI) (Some bQ))
    = swapIQ true (fst (update d t (swapIQ false p) (Some bI) (Some bQ))) /\
  emitted 0 (snd (update d t (swapIQ true p) (Some bI) (Some bQ)))
    = emitted 1 (snd (update d t (swapIQ false p) (Some bI) (Some bQ))) /\
  emitted 1 (snd (update d t (swapIQ true p) (Some bI) (Some bQ)))
    = emitted 0 (snd (update d t (swapIQ false p) (Some bI) (Some bQ))).
Proof.
  intros HI HQ. unfold swapIQ. rewrite !update_complete. cbv zeta.
  rewrite !after_detection_IQswap, !compensate_IQswap. cbn [fst snd IQswap with_IQswap].
  destruct (compensate_length p bI bQ) as [H1 H2].
  rewrite swap_loop_exchanges by lia. cbn [fst snd emitted Nat.eqb].
  repeat split.
Qed.

Lemma swap_only_reroutes_witness :
  emitted 0 (snd (update bench_dsp bench_thresholds (swapIQ true two_failures)
                    (Some two_pulses) (Some silence)))
  = emitted 1 (snd (update bench_dsp bench_thresholds (swapIQ false two_failures)
                      (Some two_pulses) (Some silence))).
Proof.
  apply (swap_only_reroutes bench_dsp bench_thresholds two_failures two_pulses silence);
    reflexivity.
Defined.

(** ** The fill loop *)

Lemma normalized_at_even (bI bQ : list Z) (i : nat) :
  normalized_at bI bQ (2 * i) = fdiv (of_int (sample_at bI i)) full_scale.
Proof.
  unfold normalized_at. rewrite Nat.even_mul, Nat.div2_double. reflexivity.
Qed.

Lemma normalized_at_odd (bI bQ : list Z) (i : nat) :
  normalized_at bI bQ (2 * i + 1) = fdiv (of_int (sample_at bQ i)) full_scale.
Proof.
  unfold normalized_at. rewrite Nat.add_1_r, Nat.even_succ, Nat.div2_succ_double.
  rewrite <- Nat.negb_even, Nat.even_mul. reflexivity.
Qed.

(** After the iterations [0 .. i-1] the slots below [2 i] hold the
    normalized samples and the others are as they were. *)
Lemma fill_loop_lookup (bI bQ : list Z) (buf : list float) (n : nat) :
  length (for_up (fill_body bI bQ) 0 n buf) = length buf /\
  forall k,
    for_up (fill_body bI bQ) 0 n buf !! k =
    if decide (k < 2 * n /\ k < length buf) then Some (normalized_at bI bQ k)
    else buf !! k.
Proof.
  refine (for_up_ind (fill_body bI bQ)
            (fun i s => length s = length buf /\
                        forall k, s !! k =
                          if decide (k < 2 * i /\ k < length buf)
                          then Some (normalized_at bI bQ k) else buf !! k)
            n 0 buf _ _).
  - split; [reflexivity|]. intros k. destruct (decide _); [lia | reflexivity].
  - intros i s _ [Hl Hk]. unfold fill_body. split.
    + rewrite !length_insert. exact Hl.
    + intros k. rewrite !list_lookup_insert, !length_insert, Hk, Hl.
      rewrite <- (normalized_at_even bI bQ i), <- (normalized_at_odd bI bQ i).
      repeat destruct (decide _); try lia; try reflexivity;
        destruct_and?; subst; try reflexivity; try lia.
      all: symmetry; apply lookup_ge_None_2; lia.
Qed.

Lemma normalized_lookup (bI bQ : list Z) (k : nat) :
  normalized bI bQ !! k = if decide (k < 256) then Some (normalized_at bI bQ k) else None.
Proof.
  unfold normalized. rewrite list_lookup_fmap. destruct (decide (k < 256)).
  - rewrite lookup_seq_lt by assumption. reflexivity.
  - rewrite lookup_seq_ge by lia. reflexivity.
Qed.

Lemma fill_buffer_normalized (bI bQ : list Z) (buf : list float) :
  length buf = 256 -> fill_buffer bI bQ buf = normalized bI bQ.
Proof.
  intros Hl. apply list_eq. intros k. unfold fill_buffer.
  rewrite (proj2 (fill_loop_lookup bI bQ buf 128)), normalized_lookup, Hl.
  repeat destruct (decide _); try lia; try reflexivity.
  apply lookup_ge_None_2. lia.
Qed.

(** X7. On the 256-float buffer the fill loop leaves exactly the two
    blocks interleaved and divided by the full scale, slot [2 i] from I and
    slot [2 i + 1] from Q for each of the 128 samples: every slot is
    overwritten, so the spectrum the detection works on does not depend on
    what the previous tick left in the buffer. *)
Theorem fill_buffer_overwrites (bI bQ : list Z) (buf : list float) :
  length buf = 256 ->
  fill_buffer bI bQ buf = normalized bI bQ /\
  (forall i, i < 128 ->
     float_at (fill_buffer bI bQ buf) (2 * i)
       = fdiv (of_int (sample_at bI i)) full_scale /\
     float_at (fill_buffer bI bQ buf) (2 * i + 1)
       = fdiv (of_int (sample_at bQ i)) full_scale) /\
  (forall d buf', length buf' = 256 ->
     power_spectrum d bI bQ buf = power_spectrum d bI bQ buf').
Proof.
  intros Hl. split; [apply fill_buffer_normalized; exact Hl|]. split.
  - intros i Hi. rewrite fill_buffer_normalized by exact Hl. unfold float_at.
    rewrite !normalized_lookup.
    repeat destruct (decide _); try lia.
    cbn [default]. rewrite normalized_at_even, normalized_at_odd. auto.
  - intros d buf' Hl'. unfold power_spectrum.
    rewrite !fill_buffer_normalized by assumption. reflexivity.
Qed.

Lemma fill_buffer_overwrites_witness :
  fill_buffer two_pulses (ramp 0) cosine_spectrum = normalized two_pulses (ramp 0).
Proof.
  apply (fill_buffer_overwrites two_pulses (ramp 0) cosine_spectrum). reflexivity.
Defined.

(** ** The saved sample across control calls *)

(** X8. No control function touches [savedSample], and nothing seeds it
    when a delay is switched on: the first tick after
    [setI2SerrorCompensation(1)] emits, in slot 0 of the I block, whatever
    sample the object still holds, followed by the first 127 received I
    samples, and saves the last one. *)
Theorem carry_not_reseeded (d : dsp) (t : thresholds) (p : AudioSDRpreProcessor)
    (bI bQ : list Z) :
  length bI = 128 -> length bQ = 128 ->
  savedSample (startAutoI2SerrorDetection p) = savedSample p /\
  savedSample (stopAutoI2SerrorDetection p) = savedSample p /\
  (forall c, savedSample (setI2SerrorCompensation c p) = savedSample p) /\
  (forall b, savedSample (swapIQ b p) = savedSample p) /\
  emitted (I_channel (IQswap p))
    (snd (update d t (setI2SerrorCompensation 1 p) (Some bI) (Some bQ)))
    = Some (savedSample p :: take 127 bI) /\
  savedSample (fst (update d t (setI2SerrorCompensation 1 p) (Some bI) (Some bQ)))
    = sample_at bI 127.
Proof.
  intros HI HQ. repeat (split; [reflexivity|]).
  destruct (delayI_update d t (setI2SerrorCompensation 1 p) bI bQ eq_refl HI HQ)
    as (H1 & _ & H2).
  split; [exact H1 | exact H2].
Qed.

Lemma carry_not_reseeded_witness :
  emitted 1 (snd (update bench_dsp bench_thresholds (setI2SerrorCompensation 1 manual_five)
                    (Some (ramp 0)) (Some silence)))
  = Some (9%Z :: take 127 (ramp 0)).
Proof.
  apply (carry_not_reseeded bench_dsp bench_thresholds manual_five (ramp 0) silence);
    reflexivity.
Defined.

(** ** How long the detection runs *)

Lemma gated_tick (d : dsp) (t : thresholds) (p : AudioSDRpreProcessor) (bI bQ : list Z) :
  autoDetectFlag p = true ->
  strength_gate t (tick_spectrum d p bI bQ) = true ->
  crosses t true (ratio_too_low t (tick_spectrum d p bI bQ)) p = false ->
  I2Scorrection (fst (update d t p (Some bI) (Some bQ))) = I2Scorrection p /\
  successCount (fst (update d t p (Some bI) (Some bQ))) = (successCount p + 1)%Z /\
  autoDetectFlag (fst (update d t p (Some bI) (Some bQ)))
    = negb (successCount p + 1 >? maxSuccessCount t)%Z.
Proof.
  intros He Hg. rewrite enabled_tick by exact He. rewrite Hg.
  generalize (ratio_too_low t (tick_spectrum d p bI bQ)). intros low Hc.
  destruct (before_evaluation_fields d p bI bQ) as (Hm & Hfl & Hf & Hs & _).
  rewrite <- (crosses_fields t true low _ _ Hf) in Hc.
  unfold crosses in Hc. cbn [andb] in Hc.
  destruct (state_machine_gate_on t low (before_evaluation d p bI bQ)) as [H Hflag].
  rewrite Hc in H. destruct H as (H1 & _ & H3).
  rewrite Hflag, H1, H3, Hm, Hs, Hfl, He.
  destruct (successCount p + 1 >? maxSuccessCount t)%Z; auto.
Qed.

(** X9. [successCount] counts the ticks that pass the strength gate,
    whatever their verdict.  From an object with detection enabled, over
    complete ticks that all pass the gate without crossing the failure
    threshold, the mode does not change and [successCount] grows by one per
    tick until it exceeds [maxSuccessCount]; that tick turns detection off,
    and the later ticks no longer count. *)
Theorem detection_stops_after_gated_ticks (d : dsp) (t : thresholds) (ticks : list tick) :
  forall p : AudioSDRpreProcessor,
  autoDetectFlag p = true ->
  (successCount p <= maxSuccessCount t)%Z ->
  gated_without_advance d t p ticks ->
  I2Scorrection (run_final d t p ticks) = I2Scorrection p /\
  if (successCount p + Z.of_nat (length ticks) >? maxSuccessCount t)%Z
  then autoDetectFlag (run_final d t p ticks) = false /\
       successCount (run_final d t p ticks) = (maxSuccessCount t + 1)%Z
  else autoDetectFlag (run_final d t p ticks) = true /\
       successCount (run_final d t p ticks)
         = (successCount p + Z.of_nat (length ticks))%Z.
Proof.
  induction ticks as [|[rI rQ] ticks IH]; intros p He Hs Hg.
  - cbn [run_final length Z.of_nat]. rewrite Z.add_0_r.
    destruct (Z.gtb_spec (successCount p) (maxSuccessCount t)); [lia | auto].
  - cbn [run_final]. cbn [gated_without_advance] in Hg.
    destruct rI as [bI|]; [|contradiction]. destruct rQ as [bQ|]; [|contradiction].
    destruct Hg as [Hnow Hrest]. destruct (Hnow He) as [Hgate Hcross].
    destruct (gated_tick d t p bI bQ He Hgate Hcross) as (Hm & Hsc & Hfl).
    rewrite length_cons, Nat2Z.inj_succ.
    destruct (Z.gtb_spec (successCount p + 1) (maxSuccessCount t)) as [Hover|Hin];
      cbn [negb] in Hfl.
    + destruct (disabled_run d t ticks _ Hfl) as (_ & H1 & H2).
      destruct (disabled_run_counters d t ticks _ Hfl) as (_ & H3).
      rewrite H1, H2, H3, Hm, Hsc.
      destruct (Z.gtb_spec (successCount p + Z.succ (Z.of_nat (length ticks)))
                  (maxSuccessCount t)); [split; [reflexivity | split; [reflexivity | lia]] | lia].
    + destruct (IH _ Hfl ltac:(lia) Hrest) as [H1 H2].
      rewrite H1, Hm, Hsc in *. split; [reflexivity|].
      replace (successCount p + Z.succ (Z.of_nat (length ticks)))%Z
        with (successCount p + 1 + Z.of_nat (length ticks))%Z by lia.
      exact H2.
Qed.

Lemma detection_stops_after_gated_ticks_witness :
  autoDetectFlag
    (run_final bench_dsp bench_thresholds two_successes
       [(Some one_pulse, Some silence); (Some one_pulse, Some silence);
        (Some one_pulse, Some silence); (Some one_pulse, Some silence)]) = false /\
  successCount
    (run_final bench_dsp bench_thresholds two_successes
       [(Some one_pulse, Some silence); (Some one_pulse, Some silence);
        (Some one_pulse, Some silence); (Some one_pulse, Some silence)]) = 5%Z.
Proof.
  destruct (detection_stops_after_gated_ticks bench_dsp bench_thresholds
              [(Some one_pulse, Some silence); (Some one_pulse, Some silence);
               (Some one_pulse, Some silence); (Some one_pulse, Some silence)]
              two_successes) as [_ H];
    [reflexivity | unfold bench_thresholds; cbn; lia | vm_compute; tauto |].
  exact H.
Defined.

(** ** What the emitted samples depend on *)

Lemma compensate_blocks (p p' : AudioSDRpreProcessor) (bI bQ : list Z) :
  I2Scorrection p = I2Scorrection p' -> savedSample p = savedSample p' ->
  snd (fst (compensate p bI bQ)) = snd (fst (compensate p' bI bQ)) /\
  snd (compensate p bI bQ) = snd (compensate p' bI bQ) /\
  savedSample (fst (fst (compensate p bI bQ)))
    = savedSample (fst (fst (compensate p' bI bQ))).
Proof.
  intros Hm Hs. unfold compensate. rewrite <- Hm, <- Hs.
  destruct (I2Scorrection p =? 1)%Z; [|destruct (I2Scorrection p =? -1)%Z];
    cbn [fst snd savedSample with_savedSample]; auto.
Qed.

(** X10. The blocks a complete tick transmits, and the sample it saves,
    are fixed by the received blocks and by [I2Scorrection], [savedSample]
    and [IQswap] as the tick finds them: the detection flag, the counters,
    the thresholds and the transform have no part in them.  A mode the
    detection changes during a tick is first used by the next tick; with a
    mode other than 1 and -1 the received blocks are transmitted as they
    are, detection running or not. *)
Theorem outputs_ignore_detection (d d' : dsp) (t t' : thresholds)
    (p p' : AudioSDRpreProcessor) (bI bQ : list Z) :
  I2Scorrection p = I2Scorrection p' ->
  savedSample p = savedSample p' ->
  IQswap p = IQswap p' ->
  snd (update d t p (Some bI) (Some bQ)) = snd (update d' t' p' (Some bI) (Some bQ)) /\
  savedSample (fst (update d t p (Some bI) (Some bQ)))
    = savedSample (fst (update d' t' p' (Some bI) (Some bQ))) /\
  (I2Scorrection p <> 1%Z -> I2Scorrection p <> (-1)%Z ->
   length bI = 128 -> length bQ = 128 ->
   emitted (I_channel (IQswap p)) (snd (update d t p (Some bI) (Some bQ))) = Some bI /\
   emitted (Q_channel (IQswap p)) (snd (update d t p (Some bI) (Some bQ))) = Some bQ).
Proof.
  intros Hm Hs Hw. rewrite !update_complete. cbv zeta. cbn [fst snd].
  rewrite !after_detection_savedSample.
  destruct (compensate_blocks p p' bI bQ Hm Hs) as (H1 & H2 & H3).
  rewrite H1, H2, H3, Hw. split; [reflexivity|]. split; [reflexivity|].
  intros Hn1 Hn2 HI HQ. rewrite <- H1, <- H2, <- Hw.
  rewrite compensate_other by assumption. cbn [fst snd].
  destruct (IQswap p); cbn [I_channel Q_channel].
  - rewrite swap_loop_exchanges by lia. split; reflexivity.
  - split; reflexivity.
Qed.

Lemma outputs_ignore_detection_witness :
  snd (update bench_dsp bench_thresholds two_failures (Some two_pulses) (Some silence))
  = snd (update (mkDsp (fun b => b) (fun _ dst _ => dst)) (mkThr fzero fzero 0 0) idle
           (Some two_pulses) (Some silence)).
Proof.
  apply (outputs_ignore_detection bench_dsp (mkDsp (fun b => b) (fun _ dst _ => dst))
           bench_thresholds (mkThr fzero fzero 0 0) two_failures idle two_pulses silence);
    reflexivity.
Defined.
